(** * SwarmHack tracker and websocket server (src/server.py)

    Shallow embedding of the tag resolver ([Tag.__init__]), the tracker loop
    ([Tracker.run]: calibration, robot construction, neighbour pass) and the
    websocket [handler].

    Modelling conventions:
    - Python floats are modelled as real numbers (exact arithmetic);
      [math.dist], [math.atan2] and [math.degrees] are their real-number
      counterparts.
    - Raw corner coordinates returned by the detector (float32) are rationals
      ([Q]); [int(x)] truncates towards zero.
    - Python exceptions are the constructors of [exn]; fallible code returns
      [result].
    - A Python dict is an association list in insertion order; assigning an
      existing key replaces the value in place, a new key is appended. *)

From Stdlib Require Import ZArith QArith List String Bool Reals Lra Lia.
From Stdlib Require Import Ascii.
Import ListNotations.
Set Warnings "-register-all".

Open Scope Z_scope.

(** ** Exceptions and the error monad *)

Inductive exn :=
| IndexError
| ZeroDivisionError
| KeyError
| TypeError
| JSONDecodeError.

Inductive result (A : Type) :=
| Ok (a : A)
| Err (e : exn).
Arguments Ok {A} a.
Arguments Err {A} e.

Definition bind {A B} (m : result A) (f : A -> result B) : result B :=
  match m with
  | Ok a => f a
  | Err e => Err e
  end.

Notation "'let*' x := m 'in' k" := (bind m (fun x => k))
  (at level 200, x name, m at level 100, k at level 200).

(** ** Python dicts with integer keys *)

Section Dict.
Context {V : Type}.

Fixpoint dict_get (k : Z) (d : list (Z * V)) : option V :=
  match d with
  | [] => None
  | (k', v) :: d' => if Z.eqb k k' then Some v else dict_get k d'
  end.

(** [d[k] = v] *)
Fixpoint dict_set (k : Z) (v : V) (d : list (Z * V)) : list (Z * V) :=
  match d with
  | [] => [(k, v)]
  | (k', v') :: d' => if Z.eqb k k' then (k', v) :: d' else (k', v') :: dict_set k v d'
  end.

End Dict.

(** ** Geometry *)

Record Vector2D := mkVector2D { x : Z; y : Z }.

(** Metric positions hold floats. *)
Record PosR := mkPosR { px : R; py : R }.

(** [math.dist([a1, a2], [b1, b2])] *)
Definition math_dist (a1 a2 b1 b2 : R) : R :=
  sqrt ((a1 - b1) * (a1 - b1) + (a2 - b2) * (a2 - b2))%R.

(** [math.atan2(y, x)] for finite arguments. *)
Definition math_atan2 (y x : R) : R :=
  if Rlt_dec 0 x then atan (y / x)
  else if Rlt_dec x 0 then
    (if Rle_dec 0 y then atan (y / x) + PI else atan (y / x) - PI)%R
  else if Rlt_dec 0 y then (PI / 2)%R
  else if Rlt_dec y 0 then (- (PI / 2))%R
  else 0%R.

(** [math.degrees(r)] *)
Definition math_degrees (r : R) : R := (r * 180 / PI)%R.

(** [a < b] on floats *)
Definition Rltb (a b : R) : bool := if Rlt_dec a b then true else false.

(** [a / b] on floats: raises [ZeroDivisionError] when [b] is zero. *)
Definition py_div (a b : R) : result R :=
  if Req_EM_T b 0 then Err ZeroDivisionError else Ok (a / b)%R.

(** ** Tag resolver: [Tag.__init__] *)

(** [int(v)] for a float: truncation towards zero. *)
Definition py_int (v : Q) : Z := Z.quot (Qnum v) (Zpos (Qden v)).

Record Tag := mkTag {
  tag_id : Z;
  corners : list (Q * Q);
  tl : Vector2D; tr : Vector2D; br : Vector2D; bl : Vector2D;
  centre : Vector2D;
  front : Vector2D;
  angle : R
}.

(** [self.corners[i]] *)
Definition corner_at (cs : list (Q * Q)) (i : nat) : result Vector2D :=
  match nth_error cs i with
  | Some (cx, cy) => Ok (mkVector2D (py_int cx) (py_int cy))
  | None => Err IndexError
  end.

(** [Tag(id, raw_tag)] where [cs] is [raw_tag.tolist()[0]]. *)
Definition mk_tag (id : Z) (cs : list (Q * Q)) : result Tag :=
  let* tl := corner_at cs 0 in
  let* tr := corner_at cs 1 in
  let* br := corner_at cs 2 in
  let* bl := corner_at cs 3 in
  let centre := mkVector2D (Z.quot (x tl + x tr + x br + x bl) 4)
                           (Z.quot (y tl + y tr + y br + y bl) 4) in
  let front := mkVector2D (Z.quot (x tl + x tr) 2) (Z.quot (y tl + y tr) 2) in
  let angle := math_degrees (math_atan2 (IZR (y front - y centre))
                                        (IZR (x front - x centre))) in
  Ok (mkTag id cs tl tr br bl centre front angle).

(** ** Robots and sensor readings *)

Record SensorReading := mkSensorReading {
  range : R;
  bearing : R;
  sr_orientation : R
}.

Record Robot := mkRobot {
  tag : Tag;
  rid : Z;
  position : PosR;
  orientation : R;
  sensor_range : R;
  neighbours : list (Z * SensorReading)
}.

(** [Robot(tag, position)] *)
Definition mk_robot (t : Tag) (p : PosR) : Robot :=
  mkRobot t (tag_id t) p (angle t) (3 / 10)%R [].

Definition set_neighbours (r : Robot) (nb : list (Z * SensorReading)) : Robot :=
  mkRobot (tag r) (rid r) (position r) (orientation r) (sensor_range r) nb.

(** ** Writes to the shared robot dict [tracker.robots]

    Every write the tracker thread makes to the dict it publishes, one
    Python statement each. *)

Inductive store_op :=
| Rebind                                        (* self.robots = {} *)
| SetItem (k : Z) (r : Robot)                   (* self.robots[k] = r *)
| SetNeighbour (k oid : Z) (rd : SensorReading). (* robots[k].neighbours[oid] = rd *)

Definition exec_op (rs : list (Z * Robot)) (o : store_op) : list (Z * Robot) :=
  match o with
  | Rebind => []
  | SetItem k r => dict_set k r rs
  | SetNeighbour k oid rd =>
      map (fun '(k', r) =>
             if Z.eqb k' k then (k', set_neighbours r (dict_set oid rd (neighbours r)))
             else (k', r)) rs
  end.

(** ** Tracker state *)

Record Tracker := mkTracker {
  calibrated : bool;
  num_corner_tags : Z;
  min_x : Z; min_y : Z; max_x : Z; max_y : Z;
  corner_distance_metres : R;
  corner_distance_pixels : R;
  scale_factor : R;
  robots : list (Z * Robot)
}.

(** [Tracker.__init__] *)
Definition tracker_init : Tracker :=
  mkTracker false 0 0 0 0 0 (206 / 100)%R 0%R 0%R [].

Definition with_robots (st : Tracker) (rs : list (Z * Robot)) : Tracker :=
  mkTracker (calibrated st) (num_corner_tags st) (min_x st) (min_y st)
            (max_x st) (max_y st) (corner_distance_metres st)
            (corner_distance_pixels st) (scale_factor st) rs.

(** Apply one write to the shared dict. *)
Definition write (st : Tracker) (o : store_op) : Tracker * list store_op :=
  (with_robots st (exec_op (robots st) o), [o]).

(** First corner tag: lines 108-112. *)
Definition record_first_corner (st : Tracker) (c : Vector2D) : Tracker :=
  mkTracker (calibrated st) (num_corner_tags st) (x c) (y c) (x c) (y c)
            (corner_distance_metres st) (corner_distance_pixels st)
            (scale_factor st) (robots st).

(** Second corner tag: lines 115-126. *)
Definition calibrate_second_corner (st : Tracker) (c : Vector2D) : Tracker :=
  let min_x' := if x c <? min_x st then x c else min_x st in
  let max_x' := if x c >? max_x st then x c else max_x st in
  let min_y' := if y c <? min_y st then y c else min_y st in
  let max_y' := if y c >? max_y st then y c else max_y st in
  let pixels := math_dist (IZR min_x') (IZR min_y') (IZR max_x') (IZR max_y') in
  let scale := (pixels / corner_distance_metres st)%R in
  mkTracker true (num_corner_tags st) min_x' min_y' max_x' max_y'
            (corner_distance_metres st) pixels scale (robots st).

Definition incr_corner_tags (st : Tracker) : Tracker :=
  mkTracker (calibrated st) (num_corner_tags st + 1) (min_x st) (min_y st)
            (max_x st) (max_y st) (corner_distance_metres st)
            (corner_distance_pixels st) (scale_factor st) (robots st).

(** Body of the loop over the detected tags: lines 100-128. *)
Definition process_tag (st : Tracker) (t : Tag) : result (Tracker * list store_op) :=
  if calibrated st then
    if negb (Z.eqb (tag_id t) 0) then
      let* px := py_div (IZR (x (centre t))) (scale_factor st) in
      let* py := py_div (IZR (y (centre t))) (scale_factor st) in
      Ok (write st (SetItem (tag_id t) (mk_robot t (mkPosR px py))))
    else Ok (st, [])
  else if Z.eqb (tag_id t) 0 then
    let st1 := if Z.eqb (num_corner_tags st) 0
               then record_first_corner st (centre t)
               else calibrate_second_corner st (centre t) in
    Ok (incr_corner_tags st1, [])
  else Ok (st, []).

(** [for id, raw_tag in zip(tag_ids, raw_tags): tag = Tag(id, raw_tag); ...] *)
Fixpoint process_dets (st : Tracker) (dets : list (Z * list (Q * Q)))
  : result (Tracker * list store_op) :=
  match dets with
  | [] => Ok (st, [])
  | (id, cs) :: ds =>
      let* t := mk_tag id cs in
      let* r1 := process_tag st t in
      let* r2 := process_dets (fst r1) ds in
      Ok (fst r2, snd r1 ++ snd r2)
  end.

(** Lines 142-146 for one ordered pair: the reading [robot] gets of
    [other_robot], if it is within [robot.sensor_range]. *)
Definition neighbour_reading (robot other_robot : Robot) : option SensorReading :=
  let rng := math_dist (px (position robot)) (py (position robot))
                       (px (position other_robot)) (py (position other_robot)) in
  if Rltb rng (sensor_range robot) then
    let brg := math_degrees (math_atan2
                 (py (position other_robot) - py (position robot))
                 (px (position other_robot) - px (position robot))) in
    Some (mkSensorReading rng brg (orientation other_robot))
  else None.

(** The inner loop, lines 138-146, for the robot [robot] with key [id]. *)
Definition robot_ops (rs : list (Z * Robot)) (id : Z) (robot : Robot) : list store_op :=
  flat_map (fun '(other_id, other_robot) =>
    if negb (Z.eqb id other_id) then
      match neighbour_reading robot other_robot with
      | Some rd => [SetNeighbour id other_id rd]
      | None => []
      end
    else []) rs.

(** The neighbour pass, lines 136-146: the writes it makes, in order. *)
Definition neighbour_ops (rs : list (Z * Robot)) : list store_op :=
  flat_map (fun '(id, robot) => robot_ops rs id robot) rs.

(** One iteration of the [while True] loop of [Tracker.run] (drawing left
    out). [dets] is [zip(tag_ids, raw_tags)], empty when no tag was
    detected. Returns the new state and the writes made to
    [tracker.robots], in order. *)
Definition run_cycle (st : Tracker) (dets : list (Z * list (Q * Q)))
  : result (Tracker * list store_op) :=
  let '(st0, ops0) := write st Rebind in
  match dets with
  | [] => Ok (st0, ops0)
  | _ :: _ =>
      let* r1 := process_dets st0 dets in
      let st1 := fst r1 in
      if calibrated st1 then
        let nops := neighbour_ops (robots st1) in
        Ok (with_robots st1 (fold_left exec_op nops (robots st1)), ops0 ++ snd r1 ++ nops)
      else Ok (st1, ops0 ++ snd r1)
  end.

(** ** Websocket handler *)

Open Scope string_scope.

(** The Python values [json.loads] produces. *)
Inductive json :=
| JNull
| JBool (b : bool)
| JInt (z : Z)
| JFloat (q : Q)
| JStr (s : string)
| JArr (l : list json)
| JObj (l : list (string * json)).

(** Keys and values of the reply dict. *)
Inductive pykey := KStr (s : string) | KInt (z : Z).

Inductive pyval :=
| VBool (b : bool)
| VFloat (r : R)
| VIntList (l : list Z)
| VDict (d : list (pykey * pyval)).

Definition pykey_eqb (a b : pykey) : bool :=
  match a, b with
  | KStr s, KStr t => String.eqb s t
  | KInt m, KInt n => Z.eqb m n
  | _, _ => false
  end.

(** [reply[k] = v] *)
Fixpoint reply_set (k : pykey) (v : pyval) (d : list (pykey * pyval))
  : list (pykey * pyval) :=
  match d with
  | [] => [(k, v)]
  | (k', v') :: d' => if pykey_eqb k k' then (k', v) :: d' else (k', v') :: reply_set k v d'
  end.

(** [needle in hay] for two [str]s. *)
Fixpoint str_contains (needle hay : string) : bool :=
  String.prefix needle hay ||
  match hay with
  | EmptyString => false
  | String _ hay' => str_contains needle hay'
  end.

(** [key in message] *)
Definition py_contains (key : string) (message : json) : result bool :=
  match message with
  | JObj l => Ok (existsb (fun '(k, _) => String.eqb k key) l)
  | JArr l => Ok (existsb (fun v => match v with JStr s => String.eqb s key | _ => false end) l)
  | JStr s => Ok (str_contains key s)
  | _ => Err TypeError
  end.

(** Value of a key in a decoded JSON object: the last occurrence wins. *)
Fixpoint obj_get (key : string) (l : list (string * json)) : option json :=
  match l with
  | [] => None
  | (k, v) :: l' =>
      match obj_get key l' with
      | Some w => Some w
      | None => if String.eqb k key then Some v else None
      end
  end.

(** [message[key]] for a string key *)
Definition py_getitem (message : json) (key : string) : result json :=
  match message with
  | JObj l => match obj_get key l with Some v => Ok v | None => Err KeyError end
  | _ => Err TypeError
  end.

(** The integer a JSON value compares equal to as a dict key, if any
    ([True == 1], [7.0 == 7]); lists and dicts are unhashable. *)
Definition py_int_key (v : json) : result (option Z) :=
  match v with
  | JBool b => Ok (Some (if b then 1 else 0))
  | JInt z => Ok (Some z)
  | JFloat q => Ok (if Z.eqb (Z.rem (Qnum q) (Zpos (Qden q))) 0
                    then Some (Z.quot (Qnum q) (Zpos (Qden q))) else None)
  | JNull | JStr _ => Ok None
  | JArr _ | JObj _ => Err TypeError
  end.

(** [tracker.robots[id]] *)
Definition robots_getitem (rs : list (Z * Robot)) (id : json) : result Robot :=
  let* k := py_int_key id in
  match k with
  | Some z => match dict_get z rs with Some r => Ok r | None => Err KeyError end
  | None => Err KeyError
  end.

(** The [neighbours] entry of a reply, lines 223-229 and 238-244. *)
Definition neighbours_reply (r : Robot) : list (pykey * pyval) :=
  fold_left (fun d '(nid, n) =>
               reply_set (KInt nid)
                 (VDict [(KStr "range", VFloat (range n));
                         (KStr "bearing", VFloat (bearing n));
                         (KStr "orientation", VFloat (sr_orientation n))]) d)
            (neighbours r) [].

(** Body of [async for packet in websocket], lines 206-250, with [rs] the
    value of [tracker.robots]. [packet] is the outcome of [json.loads]:
    [Err JSONDecodeError] when the text is not valid JSON. The result is
    the reply sent, if any. *)
Definition handle_message (rs : list (Z * Robot)) (packet : result json)
  : result (option (list (pykey * pyval))) :=
  let* message := packet in
  let* c1 := py_contains "check_awake" message in
  let '(reply1, send1) :=
    if c1 then (reply_set (KStr "awake") (VBool true) [], true) else ([], false) in
  let* c2 := py_contains "get_ids" message in
  let '(reply2, send2) :=
    if c2 then (reply_set (KStr "ids") (VIntList (map fst rs)) reply1, true)
    else (reply1, send1) in
  let* c3 := py_contains "get_robot" message in
  let* s3 :=
    if c3 then
      let* id := py_getitem message "get_robot" in
      let* r := robots_getitem rs id in
      let reply := reply_set (KStr "orientation") (VFloat (orientation r)) reply2 in
      Ok (reply_set (KStr "neighbours") (VDict (neighbours_reply r)) reply, true)
    else Ok (reply2, send2) in
  let* c4 := py_contains "get_robots" message in
  let '(reply4, send4) :=
    if c4 then
      (fold_left (fun d '(id, robot) =>
                    reply_set (KInt id)
                      (VDict [(KStr "orientation", VFloat (orientation robot));
                              (KStr "neighbours", VDict (neighbours_reply robot))]) d)
                 rs (fst s3), true)
    else s3 in
  Ok (if send4 then Some reply4 else None).

(** [handler(websocket)] over the packets of one connection: the replies
    sent, and the exception that ended the handler, if any. An exception
    leaves the [async for] loop, so no later packet is read. *)
Fixpoint handler (rs : list (Z * Robot)) (packets : list (result json))
  : list (list (pykey * pyval)) * option exn :=
  match packets with
  | [] => ([], None)
  | p :: ps =>
      match handle_message rs p with
      | Err e => ([], Some e)
      | Ok None => handler rs ps
      | Ok (Some reply) => let '(replies, e) := handler rs ps in (reply :: replies, e)
      end
  end.

Close Scope string_scope.

(** ** Tracker thread and a reader running concurrently

    The tracker thread makes the writes of one cycle to [tracker.robots],
    one at a time; a protocol handler reads [tracker.robots] (without any
    lock) between any two of them. Each read is taken to be atomic, as
    [list(tracker.robots.keys())] is under the interpreter lock; the value
    read is recorded in [seen]. *)

Record Sys := mkSys {
  shared : list (Z * Robot);
  pending : list store_op;
  seen : list (list (Z * Robot))
}.

Inductive step : Sys -> Sys -> Prop :=
| step_tracker sh o ops sn :
    step (mkSys sh (o :: ops) sn) (mkSys (exec_op sh o) ops sn)
| step_reader sh ops sn :
    step (mkSys sh ops sn) (mkSys sh ops (sn ++ [sh])).

Inductive reachable : Sys -> Sys -> Prop :=
| reach_refl s : reachable s s
| reach_step s1 s2 s3 : step s1 s2 -> reachable s2 s3 -> reachable s1 s3.

(** The successive values of the dict while the writes [ops] are made. *)
Fixpoint states (sh : list (Z * Robot)) (ops : list store_op) : list (list (Z * Robot)) :=
  sh :: match ops with
        | [] => []
        | o :: os => states (exec_op sh o) os
        end.

(** ** Claim-side definitions

    The tag geometry as the spec words it, on the raw corner points. *)

Definition corner_mean (c0 c1 c2 c3 : Q * Q) : Q * Q :=
  (((fst c0 + fst c1 + fst c2 + fst c3) / 4)%Q,
   ((snd c0 + snd c1 + snd c2 + snd c3) / 4)%Q).

Definition top_midpoint (c0 c1 : Q * Q) : Q * Q :=
  (((fst c0 + fst c1) / 2)%Q, ((snd c0 + snd c1) / 2)%Q).

Definition vec_eq_Q (v : Vector2D) (p : Q * Q) : Prop :=
  inject_Z (x v) == fst p /\ inject_Z (y v) == snd p.

(** A unit square of corners. *)
Definition unit_square : list (Q * Q) :=
  [(0 # 1, 0 # 1); (1 # 1, 0 # 1); (1 # 1, 1 # 1); (0 # 1, 1 # 1)].

(** ** Lemmas on the error monad and on [process_dets] *)

Lemma bind_ok {A B} (a : A) (f : A -> result B) : bind (Ok a) f = f a.
Proof. reflexivity. Qed.

Lemma process_dets_app st pre ds :
  process_dets st (pre ++ ds) =
  let* r1 := process_dets st pre in
  let* r2 := process_dets (fst r1) ds in
  Ok (fst r2, snd r1 ++ snd r2).
Proof.
  revert st. induction pre as [|[id cs] pre IH]; intros st; simpl.
  - destruct (process_dets st ds) as [[st2 o2]|e]; reflexivity.
  - destruct (mk_tag id cs) as [t|e]; simpl; [|reflexivity].
    destruct (process_tag st t) as [[st1 o1]|e]; simpl; [|reflexivity].
    rewrite IH. destruct (process_dets st1 pre) as [[st3 o3]|e]; simpl; [|reflexivity].
    destruct (process_dets st3 ds) as [[st4 o4]|e]; simpl; [|reflexivity].
    rewrite app_assoc. reflexivity.
Qed.

Lemma corner_at_none cs i : (List.length cs <= i)%nat -> corner_at cs i = Err IndexError.
Proof.
  intros H. unfold corner_at. rewrite (proj2 (nth_error_None cs i) H). reflexivity.
Qed.

Lemma corner_at_err cs i e : corner_at cs i = Err e -> e = IndexError.
Proof.
  unfold corner_at. destruct (nth_error cs i) as [[a b]|]; congruence.
Qed.

Lemma mk_tag_short id cs : (List.length cs < 4)%nat -> mk_tag id cs = Err IndexError.
Proof.
  intros H. unfold mk_tag. rewrite (corner_at_none cs 3) by lia.
  destruct (corner_at cs 0) eqn:E0; [|apply corner_at_err in E0; subst; reflexivity].
  simpl. destruct (corner_at cs 1) eqn:E1; [|apply corner_at_err in E1; subst; reflexivity].
  simpl. destruct (corner_at cs 2) eqn:E2; [|apply corner_at_err in E2; subst]; reflexivity.
Qed.

(** ** C9: tag centre, front and heading *)

(** C9 (as stated): the centre of a tag is the mean of its 4 corner
    points and its front the midpoint of the top edge. False: the unit
    square has corner mean (1/2, 1/2) and top midpoint (1/2, 0), but the tag
    gets centre (0, 0) and front (0, 0). *)
Lemma C9_centre_not_mean :
  ~ (forall id c0 c1 c2 c3 t,
        mk_tag id [c0; c1; c2; c3] = Ok t ->
        vec_eq_Q (centre t) (corner_mean c0 c1 c2 c3) /\
        vec_eq_Q (front t) (top_midpoint c0 c1)).
Proof.
  intros H.
  destruct (H 5 (0 # 1, 0 # 1) (1 # 1, 0 # 1) (1 # 1, 1 # 1) (0 # 1, 1 # 1)
              _ eq_refl) as [[Hx _] _].
  vm_compute in Hx. discriminate Hx.
Qed.

(** C9 (amended): every corner coordinate is first truncated towards zero
    to an integer; the centre is the mean of these integer corners
    truncated towards zero (so within one pixel of it, per axis), the
    front is the midpoint of the integer top-left and top-right corners
    truncated towards zero, and the heading is the angle in degrees of the
    vector from this centre to this front. *)
Theorem C9_tag_geometry id c0 c1 c2 c3 :
  exists t, mk_tag id [c0; c1; c2; c3] = Ok t /\
    tl t = mkVector2D (py_int (fst c0)) (py_int (snd c0)) /\
    tr t = mkVector2D (py_int (fst c1)) (py_int (snd c1)) /\
    br t = mkVector2D (py_int (fst c2)) (py_int (snd c2)) /\
    bl t = mkVector2D (py_int (fst c3)) (py_int (snd c3)) /\
    x (centre t) = Z.quot (x (tl t) + x (tr t) + x (br t) + x (bl t)) 4 /\
    y (centre t) = Z.quot (y (tl t) + y (tr t) + y (br t) + y (bl t)) 4 /\
    Z.abs (x (tl t) + x (tr t) + x (br t) + x (bl t) - 4 * x (centre t)) < 4 /\
    Z.abs (y (tl t) + y (tr t) + y (br t) + y (bl t) - 4 * y (centre t)) < 4 /\
    x (front t) = Z.quot (x (tl t) + x (tr t)) 2 /\
    y (front t) = Z.quot (y (tl t) + y (tr t)) 2 /\
    angle t = math_degrees (math_atan2 (IZR (y (front t) - y (centre t)))
                                       (IZR (x (front t) - x (centre t)))).
Proof.
  destruct c0 as [a0 b0], c1 as [a1 b1], c2 as [a2 b2], c3 as [a3 b3].
  eexists. split; [reflexivity|]. cbn -[Z.quot].
  assert (Hq : forall s, Z.abs (s - 4 * Z.quot s 4) < 4).
  { intros s. pose proof (Z.quot_rem' s 4) as E.
    pose proof (Z.rem_bound_abs s 4 ltac:(lia)) as B. lia. }
  repeat split; apply Hq.
Qed.

(** ** C3: detections without exactly 4 corners *)

(** C3 (as stated): a detection whose corner list does not have exactly 4
    corners is rejected on its own and the rest of the cycle is processed
    as if it were absent. False: a 3-corner detection ahead of a
    well-formed one makes the whole batch fail with [IndexError], while
    the well-formed one alone is processed. *)
Lemma C3_short_detection_not_skipped :
  ~ (forall st id cs rest,
        List.length cs <> 4%nat ->
        process_dets st ((id, cs) :: rest) = process_dets st rest).
Proof.
  intros H.
  specialize (H tracker_init 7 (firstn 3 unit_square) [(0, unit_square)] ltac:(discriminate)).
  vm_compute in H. discriminate H.
Qed.

(** C3 (amended): [Tag.__init__] reads corners 0 to 3 only. A detection
    with fewer than 4 corners raises [IndexError], which nothing catches:
    the cycle fails there and the detections after it are not processed.
    A detection with more than 4 corners is accepted, with the centre,
    front and heading of its first 4 corners. *)
Theorem C3_malformed_detection st pre r id cs rest :
  process_dets (with_robots st []) pre = Ok r ->
  ((List.length cs < 4)%nat -> run_cycle st (pre ++ (id, cs) :: rest) = Err IndexError) /\
  ((4 <= List.length cs)%nat ->
     exists t t', mk_tag id cs = Ok t /\ mk_tag id (firstn 4 cs) = Ok t' /\
       tag_id t = id /\ centre t = centre t' /\ front t = front t' /\ angle t = angle t').
Proof.
  intros Hpre. split.
  - intros Hlen. unfold run_cycle, write. cbn [fst snd exec_op].
    destruct (pre ++ (id, cs) :: rest) as [|d ds] eqn:E.
    + destruct pre; discriminate E.
    + rewrite <- E, process_dets_app, Hpre. simpl.
      rewrite mk_tag_short by exact Hlen. reflexivity.
  - intros Hlen.
    destruct cs as [|c0 [|c1 [|c2 [|c3 cs]]]]; simpl in Hlen; try lia.
    destruct c0, c1, c2, c3. simpl.
    do 2 eexists. repeat split; reflexivity.
Qed.

Lemma C3_malformed_detection_witness :
  process_dets (with_robots tracker_init []) [] = Ok (with_robots tracker_init [], []) /\
  run_cycle tracker_init ([] ++ (7, firstn 3 unit_square) :: []) = Err IndexError.
Proof.
  split; [reflexivity|].
  apply (C3_malformed_detection tracker_init [] (with_robots tracker_init [], [])
           7 (firstn 3 unit_square) []); [reflexivity|].
  simpl. lia.
Defined.

(** ** The [while True] loop over frames *)

Fixpoint run_cycles (st : Tracker) (cycles : list (list (Z * list (Q * Q)))) : result Tracker :=
  match cycles with
  | [] => Ok st
  | dets :: cs => let* r := run_cycle st dets in run_cycles (fst r) cs
  end.

(** The calibration part of the tracker state. *)
Definition calib_fields (st : Tracker) :=
  (calibrated st, num_corner_tags st, min_x st, min_y st, max_x st, max_y st,
   corner_distance_metres st, corner_distance_pixels st, scale_factor st).

Lemma calib_fields_with_robots st rs : calib_fields (with_robots st rs) = calib_fields st.
Proof. reflexivity. Qed.

Lemma py_div_ok a b : b <> 0%R -> py_div a b = Ok (a / b)%R.
Proof. intros H. unfold py_div. destruct (Req_EM_T b 0); [contradiction|reflexivity]. Qed.

Lemma process_tag_calibrated st t st' ops :
  calibrated st = true -> process_tag st t = Ok (st', ops) ->
  calib_fields st' = calib_fields st.
Proof.
  intros Hc Hp. unfold process_tag in Hp. rewrite Hc in Hp.
  destruct (negb (tag_id t =? 0)).
  - unfold py_div in Hp. destruct (Req_EM_T (scale_factor st) 0); [discriminate|].
    simpl in Hp. inversion Hp. reflexivity.
  - inversion Hp. reflexivity.
Qed.

Lemma process_dets_calibrated st dets st' ops :
  calibrated st = true -> process_dets st dets = Ok (st', ops) ->
  calib_fields st' = calib_fields st.
Proof.
  revert st ops. induction dets as [|[id cs] ds IH]; intros st ops Hc Hp; simpl in Hp.
  - inversion Hp. reflexivity.
  - destruct (mk_tag id cs) as [t|e]; [|discriminate]. simpl in Hp.
    destruct (process_tag st t) as [[st1 o1]|e] eqn:E1; [|discriminate]. simpl in Hp.
    destruct (process_dets st1 ds) as [[st2 o2]|e] eqn:E2; [|discriminate]. simpl in Hp.
    inversion Hp; subst.
    pose proof (process_tag_calibrated _ _ _ _ Hc E1) as H1.
    assert (Hc1 : calibrated st1 = true) by (unfold calib_fields in H1; congruence).
    rewrite (IH st1 o2 Hc1 E2). exact H1.
Qed.

Lemma run_cycle_calibrated st dets st' ops :
  calibrated st = true -> run_cycle st dets = Ok (st', ops) ->
  calib_fields st' = calib_fields st.
Proof.
  intros Hc Hr. unfold run_cycle, write in Hr. cbn [fst snd exec_op] in Hr.
  destruct dets as [|d ds].
  - inversion Hr. reflexivity.
  - destruct (process_dets (with_robots st []) (d :: ds)) as [[st1 o1]|e] eqn:E;
      [|discriminate].
    simpl in Hr.
    pose proof (process_dets_calibrated (with_robots st []) _ _ _ Hc E) as H1.
    rewrite calib_fields_with_robots in H1.
    destruct (calibrated st1); inversion Hr; subst;
      rewrite ?calib_fields_with_robots; exact H1.
Qed.

(** ** C6: calibration is final *)

(** C6: once the tracker is calibrated, no later cycle changes its
    calibration (status, corner count, bounds, pixel distance, scale
    factor), and every corner tag (id 0) it meets afterwards is ignored:
    it leaves the state unchanged and writes nothing. *)
Theorem C6_calibration_frozen st cycles st' :
  calibrated st = true ->
  (forall t, tag_id t = 0 -> process_tag st t = Ok (st, [])) /\
  (run_cycles st cycles = Ok st' -> calib_fields st' = calib_fields st).
Proof.
  intros Hc. split.
  - intros t Ht. unfold process_tag. rewrite Hc, Ht. reflexivity.
  - revert st Hc. induction cycles as [|dets cs IH]; intros st Hc Hr; simpl in Hr.
    + inversion Hr. reflexivity.
    + destruct (run_cycle st dets) as [[st1 o1]|e] eqn:E; [|discriminate].
      simpl in Hr. pose proof (run_cycle_calibrated _ _ _ _ Hc E) as H1.
      assert (Hc1 : calibrated st1 = true) by (unfold calib_fields in H1; congruence).
      rewrite (IH st1 Hc1 Hr). exact H1.
Qed.

Definition calibrated_state : Tracker :=
  mkTracker true 2 0 0 1030 0 (206 / 100)%R 1030%R 500%R [].

Lemma C6_calibration_frozen_witness :
  calibrated calibrated_state = true /\
  process_tag calibrated_state
    (mkTag 0 unit_square (mkVector2D 0 0) (mkVector2D 1 0) (mkVector2D 1 1)
           (mkVector2D 0 1) (mkVector2D 0 0) (mkVector2D 0 0) 0%R)
  = Ok (calibrated_state, []).
Proof.
  split; [reflexivity|].
  apply (proj1 (C6_calibration_frozen calibrated_state [] calibrated_state eq_refl)).
  reflexivity.
Defined.

(** ** Calibration from the first two corner tags *)

(** Centres of the corner tags (id 0) among the detections, in order. *)
Definition corner_centres (dets : list (Z * list (Q * Q))) : list Vector2D :=
  flat_map (fun '(id, cs) =>
              if Z.eqb id 0 then
                match mk_tag id cs with Ok t => [centre t] | Err _ => [] end
              else []) dets.

Definition pixel_dist (p q : Vector2D) : R :=
  math_dist (IZR (x p)) (IZR (y p)) (IZR (x q)) (IZR (y q)).

(** What the tracker state records after the corner tags [cs] were seen. *)
Definition calib_phase (st : Tracker) (cs : list Vector2D) : Prop :=
  corner_distance_metres st = (206 / 100)%R /\
  match cs with
  | [] => calibrated st = false /\ num_corner_tags st = 0
  | [p] => calibrated st = false /\ num_corner_tags st = 1 /\
           min_x st = x p /\ max_x st = x p /\ min_y st = y p /\ max_y st = y p
  | p1 :: p2 :: _ =>
      calibrated st = true /\
      corner_distance_pixels st =
        math_dist (IZR (min_x st)) (IZR (min_y st)) (IZR (max_x st)) (IZR (max_y st)) /\
      corner_distance_pixels st = pixel_dist p1 p2 /\
      scale_factor st = (pixel_dist p1 p2 / (206 / 100))%R
  end.

Lemma calib_phase_ext st st' cs :
  calib_fields st' = calib_fields st -> calib_phase st cs -> calib_phase st' cs.
Proof.
  unfold calib_fields, calib_phase. intros E.
  inversion E as [[Hc Hn Hmx Hmy Hxx Hxy Hm Hp Hs]].
  rewrite Hc, Hn, Hmx, Hmy, Hxx, Hxy, Hm, Hp, Hs. tauto.
Qed.

(** The bounding box of two points spans the same distance as the points. *)
Lemma bbox_dist (a b : Z) :
  let lo := if b <? a then b else a in
  let hi := if b >? a then b else a in
  ((IZR lo - IZR hi) * (IZR lo - IZR hi) = (IZR a - IZR b) * (IZR a - IZR b))%R.
Proof.
  simpl. rewrite Z.gtb_ltb.
  destruct (Z.ltb_spec b a), (Z.ltb_spec a b); try lia; try ring.
  assert (a = b) by lia. subst. ring.
Qed.

Lemma calibrate_second_corner_dist st p c :
  min_x st = x p -> max_x st = x p -> min_y st = y p -> max_y st = y p ->
  corner_distance_pixels (calibrate_second_corner st c) = pixel_dist p c.
Proof.
  intros H1 H2 H3 H4. unfold calibrate_second_corner, pixel_dist, math_dist. simpl.
  rewrite H1, H2, H3, H4. f_equal.
  rewrite (bbox_dist (x p) (x c)), (bbox_dist (y p) (y c)). reflexivity.
Qed.

Lemma process_tag_phase st cs t st' o :
  calib_phase st cs -> process_tag st t = Ok (st', o) ->
  calib_phase st' (cs ++ (if Z.eqb (tag_id t) 0 then [centre t] else [])).
Proof.
  intros Hph Hp.
  destruct cs as [|p1 [|p2 cs]].
  - destruct Hph as [Hm [Hc Hn]].
    unfold process_tag in Hp. rewrite Hc in Hp.
    destruct (tag_id t =? 0); inversion Hp; subst.
    + rewrite Hn. simpl. unfold incr_corner_tags, record_first_corner; simpl.
      repeat split; try assumption. rewrite Hn. reflexivity.
    + repeat split; assumption.
  - destruct Hph as [Hm [Hc [Hn [Hx1 [Hx2 [Hy1 Hy2]]]]]].
    unfold process_tag in Hp. rewrite Hc in Hp.
    destruct (tag_id t =? 0); inversion Hp; subst.
    + rewrite Hn. simpl.
      pose proof (calibrate_second_corner_dist st p1 (centre t) Hx1 Hx2 Hy1 Hy2) as D.
      unfold incr_corner_tags, calibrate_second_corner in D |- *. simpl in D |- *.
      repeat split; try assumption; rewrite ?D; try reflexivity. rewrite Hm. reflexivity.
    + repeat split; assumption.
  - pose proof (proj1 (proj2 Hph)) as Hc.
    pose proof (process_tag_calibrated _ _ _ _ Hc Hp) as E.
    simpl. exact (calib_phase_ext _ _ _ E Hph).
Qed.

Lemma calib_phase_app2 st p1 p2 r l :
  calib_phase st (p1 :: p2 :: r) -> calib_phase st ((p1 :: p2 :: r) ++ l).
Proof. simpl. tauto. Qed.

Lemma process_dets_phase st cs dets st' ops :
  calib_phase st cs -> process_dets st dets = Ok (st', ops) ->
  calib_phase st' (cs ++ corner_centres dets).
Proof.
  revert st cs ops. induction dets as [|[id css] ds IH]; intros st cs ops Hph Hp; simpl in Hp.
  - inversion Hp; subst. rewrite app_nil_r. exact Hph.
  - destruct (mk_tag id css) as [t|e] eqn:Et; [|discriminate]. simpl in Hp.
    destruct (process_tag st t) as [[st1 o1]|e] eqn:E1; [|discriminate]. simpl in Hp.
    destruct (process_dets st1 ds) as [[st2 o2]|e] eqn:E2; [|discriminate]. simpl in Hp.
    inversion Hp; subst.
    pose proof (process_tag_phase _ _ _ _ _ Hph E1) as H1.
    assert (Hid : tag_id t = id).
    { unfold mk_tag in Et.
      destruct (corner_at css 0); [|discriminate]. destruct (corner_at css 1); [|discriminate].
      destruct (corner_at css 2); [|discriminate]. destruct (corner_at css 3); [|discriminate].
      inversion Et. reflexivity. }
    rewrite Hid in H1.
    specialize (IH _ _ _ H1 E2). simpl. rewrite Et. rewrite <- app_assoc in IH.
    destruct (id =? 0); exact IH.
Qed.

Lemma run_cycle_phase st cs dets st' ops :
  calib_phase st cs -> run_cycle st dets = Ok (st', ops) ->
  calib_phase st' (cs ++ corner_centres dets).
Proof.
  intros Hph Hr. unfold run_cycle, write in Hr. cbn [fst snd exec_op] in Hr.
  assert (H0 : calib_phase (with_robots st []) cs)
    by exact (calib_phase_ext st _ cs (calib_fields_with_robots st []) Hph).
  destruct dets as [|d ds].
  - inversion Hr; subst. rewrite app_nil_r. exact H0.
  - destruct (process_dets (with_robots st []) (d :: ds)) as [[st1 o1]|e] eqn:E;
      [|discriminate].
    simpl in Hr. pose proof (process_dets_phase _ _ _ _ _ H0 E) as H1.
    destruct (calibrated st1); inversion Hr; subst; [|exact H1].
    exact (calib_phase_ext _ _ _ (calib_fields_with_robots _ _) H1).
Qed.

Lemma run_cycles_phase st cs cycles st' :
  calib_phase st cs -> run_cycles st cycles = Ok st' ->
  calib_phase st' (cs ++ corner_centres (List.concat cycles)).
Proof.
  revert st cs. induction cycles as [|dets cyc IH]; intros st cs Hph Hr; simpl in Hr.
  - inversion Hr; subst. simpl. rewrite app_nil_r. exact Hph.
  - destruct (run_cycle st dets) as [[st1 o1]|e] eqn:E; [|discriminate].
    simpl in Hr. pose proof (run_cycle_phase _ _ _ _ _ Hph E) as H1.
    specialize (IH _ _ H1 Hr). simpl.
    unfold corner_centres in IH |- *. rewrite flat_map_app, app_assoc. exact IH.
Qed.

Lemma calib_phase_init : calib_phase tracker_init [].
Proof. repeat split. Qed.

Lemma pixel_dist_sym p q : pixel_dist p q = pixel_dist q p.
Proof. unfold pixel_dist, math_dist. f_equal. ring. Qed.

Lemma pixel_dist_zero p q : pixel_dist p q = 0%R <-> p = q.
Proof.
  unfold pixel_dist, math_dist. destruct p as [a b], q as [c d]. simpl. split.
  - intros H.
    assert (Hs : ((IZR a - IZR c) * (IZR a - IZR c) + (IZR b - IZR d) * (IZR b - IZR d) = 0)%R).
    { pose proof (Rle_0_sqr (IZR a - IZR c)) as S1.
      pose proof (Rle_0_sqr (IZR b - IZR d)) as S2. unfold Rsqr in S1, S2.
      apply sqrt_eq_0; [lra|exact H]. }
    pose proof (Rle_0_sqr (IZR a - IZR c)) as S1.
    pose proof (Rle_0_sqr (IZR b - IZR d)) as S2. unfold Rsqr in S1, S2.
    assert (E1 : (IZR a - IZR c = 0)%R).
    { apply Rsqr_0_uniq. unfold Rsqr. lra. }
    assert (E2 : (IZR b - IZR d = 0)%R).
    { apply Rsqr_0_uniq. unfold Rsqr. lra. }
    rewrite <- minus_IZR in E1, E2. apply eq_IZR in E1, E2.
    f_equal; lia.
  - intros H. inversion H; subst.
    replace ((IZR c - IZR c) * (IZR c - IZR c) + (IZR d - IZR d) * (IZR d - IZR d))%R
      with 0%R by ring.
    apply sqrt_0.
Qed.

(** The calibration the tracker holds once the first two corner-tag
    centres [p1] and [p2] have been seen. *)
Lemma calibration_from_corners cycles st' p1 p2 rest :
  run_cycles tracker_init cycles = Ok st' ->
  corner_centres (List.concat cycles) = p1 :: p2 :: rest ->
  calibrated st' = true /\
  corner_distance_metres st' = (206 / 100)%R /\
  scale_factor st' = (pixel_dist p1 p2 / (206 / 100))%R /\
  corner_distance_pixels st' =
    math_dist (IZR (min_x st')) (IZR (min_y st')) (IZR (max_x st')) (IZR (max_y st')) /\
  corner_distance_pixels st' = pixel_dist p1 p2.
Proof.
  intros Hr Hc.
  pose proof (run_cycles_phase _ _ _ _ calib_phase_init Hr) as Hph.
  rewrite app_nil_l, Hc in Hph. unfold calib_phase in Hph. tauto.
Qed.

(** ** C5: the scale factor *)

(** C5: over any sequence of cycles run from the start, once the first two
    corner-tag centres [p1] and [p2] have been seen (in one cycle or in
    different ones), the scale factor is the Euclidean pixel distance
    between them divided by the reference distance (2.06 m), in either
    order, and the distance between the min and max points of the
    bounding box is that same pixel distance. *)
Theorem C5_scale_factor cycles st' p1 p2 rest :
  run_cycles tracker_init cycles = Ok st' ->
  corner_centres (List.concat cycles) = p1 :: p2 :: rest ->
  calibrated st' = true /\
  corner_distance_metres st' = (206 / 100)%R /\
  scale_factor st' = (pixel_dist p1 p2 / corner_distance_metres st')%R /\
  scale_factor st' = (pixel_dist p2 p1 / corner_distance_metres st')%R /\
  math_dist (IZR (min_x st')) (IZR (min_y st')) (IZR (max_x st')) (IZR (max_y st'))
    = pixel_dist p1 p2.
Proof.
  intros Hr Hc.
  destruct (calibration_from_corners _ _ _ _ _ Hr Hc) as [Hcal [Hm [Hs [Hd1 Hd2]]]].
  rewrite Hm, <- (pixel_dist_sym p1 p2).
  repeat split; try assumption. congruence.
Qed.

Definition ok_or {A} (d : A) (r : result A) : A :=
  match r with Ok a => a | Err _ => d end.

Definition is_ok {A} (r : result A) : bool :=
  match r with Ok _ => true | Err _ => false end.

Lemma ok_or_eq {A} (d : A) r : is_ok r = true -> r = Ok (ok_or d r).
Proof. destruct r; simpl; congruence. Qed.

(** A 20-pixel square tag whose centre is [(cx, cy)]. *)
Definition square_at (cx cy : Z) : list (Q * Q) :=
  [(inject_Z (cx - 10), inject_Z (cy - 10)); (inject_Z (cx + 10), inject_Z (cy - 10));
   (inject_Z (cx + 10), inject_Z (cy + 10)); (inject_Z (cx - 10), inject_Z (cy + 10))].

(** The corner tags at pixels (0, 0) and (1030, 0), in two cycles. *)
Definition calibration_cycles : list (list (Z * list (Q * Q))) :=
  [[(0, square_at 0 0)]; [(0, square_at 1030 0)]].

Definition calibrated_by_cycles : Tracker :=
  ok_or tracker_init (run_cycles tracker_init calibration_cycles).

Lemma C5_scale_factor_witness :
  run_cycles tracker_init calibration_cycles = Ok calibrated_by_cycles /\
  scale_factor calibrated_by_cycles =
    (pixel_dist (mkVector2D 0 0) (mkVector2D 1030 0) / (206 / 100))%R.
Proof.
  assert (Hr : run_cycles tracker_init calibration_cycles = Ok calibrated_by_cycles)
    by (apply ok_or_eq; vm_compute; reflexivity).
  split; [exact Hr|].
  destruct (C5_scale_factor calibration_cycles calibrated_by_cycles
              (mkVector2D 0 0) (mkVector2D 1030 0) [] Hr) as [_ [Hm [Hs _]]];
    [vm_compute; reflexivity|].
  rewrite Hs, Hm. reflexivity.
Defined.

(** ** C10: coincident corner centres *)

(** C10: if the two corner-tag centres that complete the calibration
    coincide, the scale factor is 0 (and only then), and from then on the
    position of every robot tag divides by it and raises
    [ZeroDivisionError]; with distinct centres the division goes through. *)
Theorem C10_zero_scale_factor cycles st' p1 p2 rest :
  run_cycles tracker_init cycles = Ok st' ->
  corner_centres (List.concat cycles) = p1 :: p2 :: rest ->
  (scale_factor st' = 0%R <-> p1 = p2) /\
  (p1 = p2 -> forall t, tag_id t <> 0 -> process_tag st' t = Err ZeroDivisionError) /\
  (p1 <> p2 -> forall t, tag_id t <> 0 -> exists r, process_tag st' t = Ok r).
Proof.
  intros Hr Hc.
  destruct (calibration_from_corners _ _ _ _ _ Hr Hc) as [Hcal [_ [Hs _]]].
  assert (Hz : scale_factor st' = 0%R <-> p1 = p2).
  { rewrite Hs, <- pixel_dist_zero. split; intros H.
    - apply (Rmult_eq_reg_r (/ (206 / 100))); [|lra]. unfold Rdiv in H. lra.
    - rewrite H. unfold Rdiv. ring. }
  split; [exact Hz|split].
  - intros E t Ht. apply Hz in E.
    unfold process_tag. rewrite Hcal. rewrite <- Z.eqb_neq in Ht. rewrite Ht. simpl.
    unfold py_div. rewrite E. destruct (Req_EM_T 0 0); [reflexivity|contradiction].
  - intros E t Ht.
    assert (Hnz : scale_factor st' <> 0%R) by (intros H; apply E, Hz, H).
    unfold process_tag. rewrite Hcal. rewrite <- Z.eqb_neq in Ht. rewrite Ht. simpl.
    rewrite !py_div_ok by exact Hnz. eexists. reflexivity.
Qed.

(** The same corner tag, at pixel (0, 0), seen in two cycles. *)
Definition repeated_corner_cycles : list (list (Z * list (Q * Q))) :=
  [[(0, square_at 0 0)]; [(0, square_at 0 0)]].

Definition zero_scale_tracker : Tracker :=
  ok_or tracker_init (run_cycles tracker_init repeated_corner_cycles).

Definition robot_tag_7 : Tag :=
  mkTag 7 (square_at 500 0) (mkVector2D 490 (-10)) (mkVector2D 510 (-10))
        (mkVector2D 510 10) (mkVector2D 490 10) (mkVector2D 500 0)
        (mkVector2D 500 (-10)) (-90)%R.

Lemma C10_zero_scale_factor_witness :
  run_cycles tracker_init repeated_corner_cycles = Ok zero_scale_tracker /\
  process_tag zero_scale_tracker robot_tag_7 = Err ZeroDivisionError.
Proof.
  assert (Hr : run_cycles tracker_init repeated_corner_cycles = Ok zero_scale_tracker)
    by (apply ok_or_eq; vm_compute; reflexivity).
  split; [exact Hr|].
  apply (proj1 (proj2 (C10_zero_scale_factor repeated_corner_cycles zero_scale_tracker
                        (mkVector2D 0 0) (mkVector2D 0 0) [] Hr
                        ltac:(vm_compute; reflexivity))) eq_refl).
  discriminate.
Defined.

(** ** Dict lemmas *)

Section DictLemmas.
Context {V : Type}.
Implicit Types (d : list (Z * V)) (k b : Z) (v : V).

Lemma dict_get_set b k v d :
  dict_get b (dict_set k v d) = if Z.eqb b k then Some v else dict_get b d.
Proof.
  induction d as [|[k' v'] d IH]; simpl.
  - reflexivity.
  - destruct (Z.eqb_spec k k') as [->|Hk]; simpl.
    + destruct (b =? k'); reflexivity.
    + rewrite IH. destruct (Z.eqb_spec b k), (Z.eqb_spec b k'); subst; try lia; reflexivity.
Qed.

Lemma dict_get_In k v d : dict_get k d = Some v -> In (k, v) d.
Proof.
  induction d as [|[k' v'] d IH]; simpl; [discriminate|].
  destruct (Z.eqb_spec k k') as [->|_]; intros H.
  - inversion H. left. reflexivity.
  - right. apply IH, H.
Qed.

Lemma dict_get_none k d : ~ In k (map fst d) -> dict_get k d = None.
Proof.
  induction d as [|[k' v'] d IH]; simpl; [reflexivity|].
  intros Hn. destruct (Z.eqb_spec k k'); [subst; tauto|]. apply IH. tauto.
Qed.

Lemma dict_set_keys z k v d : In z (map fst (dict_set k v d)) -> z = k \/ In z (map fst d).
Proof.
  induction d as [|[k' v'] d IH]; simpl.
  - intros [H|[]]. left. symmetry. exact H.
  - destruct (k =? k'); simpl; intros [H|H]; try tauto.
Qed.

Lemma dict_set_NoDup k v d : NoDup (map fst d) -> NoDup (map fst (dict_set k v d)).
Proof.
  induction d as [|[k' v'] d IH]; simpl; intros Hnd.
  - constructor; [intros []|constructor].
  - inversion Hnd as [|? ? Hni Hnd']; subst.
    destruct (Z.eqb_spec k k') as [->|Hk]; simpl.
    + constructor; assumption.
    + constructor; [|apply IH, Hnd'].
      intros Hin. destruct (dict_set_keys _ _ _ _ Hin); [lia|contradiction].
Qed.

Lemma dict_set_In k' v' k v d : In (k', v') (dict_set k v d) -> (k' = k /\ v' = v) \/ In (k', v') d.
Proof.
  induction d as [|[k0 v0] d IH]; simpl.
  - intros [H|[]]. inversion H. left. split; reflexivity.
  - destruct (Z.eqb_spec k k0) as [->|_]; simpl; intros [H|H].
    + inversion H. left. split; reflexivity.
    + tauto.
    + tauto.
    + destruct (IH H); tauto.
Qed.

End DictLemmas.

(** ** The robot dict built by the tag loop *)

(** Keys are distinct, each robot is stored under its own id, and no robot
    has a neighbour yet. *)
Definition fresh_robots (rs : list (Z * Robot)) : Prop :=
  NoDup (map fst rs) /\ forall k r, In (k, r) rs -> rid r = k /\ neighbours r = [].

Lemma process_tag_fresh st t st' o :
  fresh_robots (robots st) -> process_tag st t = Ok (st', o) -> fresh_robots (robots st').
Proof.
  intros [Hnd Hr] Hp. unfold process_tag in Hp.
  destruct (calibrated st).
  - destruct (negb (tag_id t =? 0)).
    + destruct (py_div (IZR (x (centre t))) (scale_factor st)); [|discriminate]. simpl in Hp.
      destruct (py_div (IZR (y (centre t))) (scale_factor st)); [|discriminate]. simpl in Hp.
      inversion Hp; subst. simpl. split.
      * apply dict_set_NoDup, Hnd.
      * intros k r Hin. destruct (dict_set_In _ _ _ _ _ Hin) as [[-> ->]|H].
        -- split; reflexivity.
        -- apply Hr, H.
    + inversion Hp; subst. split; assumption.
  - destruct (tag_id t =? 0); inversion Hp; subst; [|split; assumption].
    destruct (num_corner_tags st =? 0); split; assumption.
Qed.

Lemma process_dets_fresh st dets st' ops :
  fresh_robots (robots st) -> process_dets st dets = Ok (st', ops) -> fresh_robots (robots st').
Proof.
  revert st ops. induction dets as [|[id cs] ds IH]; intros st ops Hf Hp; simpl in Hp.
  - inversion Hp; subst. exact Hf.
  - destruct (mk_tag id cs) as [t|e]; [|discriminate]. simpl in Hp.
    destruct (process_tag st t) as [[st1 o1]|e] eqn:E1; [|discriminate]. simpl in Hp.
    destruct (process_dets st1 ds) as [[st2 o2]|e] eqn:E2; [|discriminate]. simpl in Hp.
    inversion Hp; subst.
    exact (IH _ _ (process_tag_fresh _ _ _ _ Hf E1) E2).
Qed.

(** ** The neighbour pass *)

(** The neighbours dict of the robot with key [k] after the writes [ops]. *)
Definition nb_after (k : Z) (ops : list store_op) (nb : list (Z * SensorReading))
  : list (Z * SensorReading) :=
  fold_left (fun nb o =>
               match o with
               | SetNeighbour k' oid rd => if Z.eqb k' k then dict_set oid rd nb else nb
               | _ => nb
               end) ops nb.

Definition is_set_neighbour (o : store_op) : Prop :=
  exists k oid rd, o = SetNeighbour k oid rd.

(** Filling a neighbours dict from the entries of [rs]. *)
Definition fill (g : Z -> Robot -> option SensorReading) (rs : list (Z * Robot))
  (nb : list (Z * SensorReading)) : list (Z * SensorReading) :=
  fold_left (fun nb '(oid, o) =>
               match g oid o with Some rd => dict_set oid rd nb | None => nb end) rs nb.

Lemma set_neighbours_id r : set_neighbours r (neighbours r) = r.
Proof. destruct r; reflexivity. Qed.

Lemma fold_exec_set_neighbours ops rs :
  Forall is_set_neighbour ops ->
  fold_left exec_op ops rs =
  map (fun '(k, r) => (k, set_neighbours r (nb_after k ops (neighbours r)))) rs.
Proof.
  revert rs. induction ops as [|o ops IH]; intros rs Hf; simpl.
  - induction rs as [|[k r] rs IHrs]; simpl; [reflexivity|].
    rewrite set_neighbours_id, <- IHrs. reflexivity.
  - inversion Hf as [|? ? [k0 [oid [rd ->]]] Hf']; subst.
    rewrite (IH _ Hf'). simpl. rewrite map_map. apply map_ext.
    intros [k r]. destruct (Z.eqb_spec k k0) as [->|Hk]; simpl.
    + rewrite Z.eqb_refl. reflexivity.
    + replace (k0 =? k) with false by (symmetry; apply Z.eqb_neq; lia). reflexivity.
Qed.

Lemma nb_after_app k l1 l2 nb : nb_after k (l1 ++ l2) nb = nb_after k l2 (nb_after k l1 nb).
Proof. unfold nb_after. apply fold_left_app. Qed.

Lemma robot_ops_set_neighbour rs id r : Forall is_set_neighbour (robot_ops rs id r).
Proof.
  apply Forall_forall. intros o Hin. unfold robot_ops in Hin.
  apply in_flat_map in Hin as [[oid ro] [_ Hin]].
  destruct (negb (id =? oid)); [|destruct Hin].
  destruct (neighbour_reading r ro); [|destruct Hin].
  destruct Hin as [<-|[]]. do 3 eexists. reflexivity.
Qed.

Lemma neighbour_ops_set_neighbour rs : Forall is_set_neighbour (neighbour_ops rs).
Proof.
  apply Forall_forall. intros o Hin. unfold neighbour_ops in Hin.
  apply in_flat_map in Hin as [[id r] [_ Hin]].
  exact (proj1 (Forall_forall _ _) (robot_ops_set_neighbour rs id r) o Hin).
Qed.

Lemma nb_after_robot_ops_other k rs id r nb :
  k <> id -> nb_after k (robot_ops rs id r) nb = nb.
Proof.
  intros Hk. revert nb. induction rs as [|[oid o] rs IH]; intros nb; [reflexivity|].
  unfold robot_ops. simpl. rewrite nb_after_app.
  destruct (negb (id =? oid)); [destruct (neighbour_reading r o)|]; simpl;
    try (replace (id =? k) with false by (symmetry; apply Z.eqb_neq; lia));
    apply IH.
Qed.

Lemma nb_after_robot_ops_self k rs r nb :
  nb_after k (robot_ops rs k r) nb =
  fill (fun oid o => if negb (Z.eqb k oid) then neighbour_reading r o else None) rs nb.
Proof.
  revert nb. induction rs as [|[oid o] rs IH]; intros nb; [reflexivity|].
  unfold robot_ops. simpl. rewrite nb_after_app.
  destruct (negb (k =? oid)); [destruct (neighbour_reading r o)|]; simpl;
    rewrite ?Z.eqb_refl; apply IH.
Qed.

Lemma nb_after_outer_absent k rs outer nb :
  ~ In k (map fst outer) ->
  nb_after k (flat_map (fun '(id, robot) => robot_ops rs id robot) outer) nb = nb.
Proof.
  revert nb. induction outer as [|[id r] outer IH]; intros nb Hn; [reflexivity|].
  simpl in *. rewrite nb_after_app, nb_after_robot_ops_other.
  - apply IH. tauto.
  - intros E. apply Hn. left. symmetry. exact E.
Qed.

Lemma nb_after_outer k rs outer rk nb :
  NoDup (map fst outer) -> dict_get k outer = Some rk ->
  nb_after k (flat_map (fun '(id, robot) => robot_ops rs id robot) outer) nb =
  nb_after k (robot_ops rs k rk) nb.
Proof.
  revert nb. induction outer as [|[id r] outer IH]; intros nb Hnd Hg; [discriminate|].
  simpl in *. inversion Hnd as [|? ? Hni Hnd']; subst.
  rewrite nb_after_app. destruct (Z.eqb_spec k id) as [->|Hk].
  - inversion Hg; subst. apply nb_after_outer_absent, Hni.
  - rewrite nb_after_robot_ops_other by exact Hk. apply IH; assumption.
Qed.

Lemma fill_get g rs nb b :
  NoDup (map fst rs) ->
  dict_get b (fill g rs nb) =
  match dict_get b rs with
  | Some rb => match g b rb with Some rd => Some rd | None => dict_get b nb end
  | None => dict_get b nb
  end.
Proof.
  revert nb. induction rs as [|[oid o] rs IH]; intros nb Hnd; [reflexivity|].
  simpl. inversion Hnd as [|? ? Hni Hnd']; subst.
  rewrite (IH _ Hnd'). destruct (Z.eqb_spec b oid) as [->|Hb].
  - rewrite (dict_get_none _ _ Hni).
    destruct (g oid o); [rewrite dict_get_set, Z.eqb_refl|]; reflexivity.
  - destruct (dict_get b rs) as [rb|];
      [destruct (g b rb)|]; try reflexivity;
      destruct (g oid o); rewrite ?dict_get_set;
      try (replace (b =? oid) with false by (symmetry; apply Z.eqb_neq; exact Hb));
      reflexivity.
Qed.

Lemma dict_get_map_entries (F : Z -> Robot -> Robot) a rs :
  dict_get a (map (fun '(k, r) => (k, F k r)) rs) = option_map (F a) (dict_get a rs).
Proof.
  induction rs as [|[k r] rs IH]; simpl; [reflexivity|].
  destruct (Z.eqb_spec a k) as [->|_]; [reflexivity|exact IH].
Qed.

Lemma dict_get_none_not_in {V} k (d : list (Z * V)) : dict_get k d = None -> ~ In k (map fst d).
Proof.
  induction d as [|[k' v'] d IH]; simpl; [tauto|].
  destruct (Z.eqb_spec k k') as [->|Hk]; [discriminate|]. intros H [E|Hin]; [lia|].
  exact (IH H Hin).
Qed.

Lemma dict_get_NoDup_In {V} k v (d : list (Z * V)) :
  NoDup (map fst d) -> In (k, v) d -> dict_get k d = Some v.
Proof.
  induction d as [|[k' v'] d IH]; simpl; [tauto|]. intros Hnd [E|Hin].
  - inversion E; subst. rewrite Z.eqb_refl. reflexivity.
  - inversion Hnd as [|? ? Hni Hnd']; subst.
    destruct (Z.eqb_spec k k') as [->|_].
    + exfalso. apply Hni. apply (in_map fst) in Hin. exact Hin.
    + apply IH; assumption.
Qed.

Lemma neighbour_pass_keys rs :
  map fst (fold_left exec_op (neighbour_ops rs) rs) = map fst rs.
Proof.
  rewrite (fold_exec_set_neighbours _ _ (neighbour_ops_set_neighbour rs)).
  rewrite map_map. apply map_ext. intros [k r]. reflexivity.
Qed.

(** After the neighbour pass, the robot with key [a] is the one the tag
    loop stored, with the neighbours its inner loop found. *)
Lemma neighbour_pass_get rs a A :
  fresh_robots rs ->
  dict_get a (fold_left exec_op (neighbour_ops rs) rs) = Some A ->
  exists ra, dict_get a rs = Some ra /\
    A = set_neighbours ra
          (fill (fun oid o => if negb (Z.eqb a oid) then neighbour_reading ra o else None)
                rs []).
Proof.
  intros [Hnd Hfr] Hg.
  rewrite (fold_exec_set_neighbours _ _ (neighbour_ops_set_neighbour rs)) in Hg.
  rewrite (dict_get_map_entries
             (fun k r => set_neighbours r (nb_after k (neighbour_ops rs) (neighbours r))))
    in Hg.
  destruct (dict_get a rs) as [ra|] eqn:Ea; [|discriminate].
  simpl in Hg. inversion Hg; subst. exists ra. split; [reflexivity|].
  rewrite (proj2 (Hfr _ _ (dict_get_In _ _ _ Ea))).
  unfold neighbour_ops. rewrite (nb_after_outer _ _ _ _ _ Hnd Ea).
  rewrite nb_after_robot_ops_self. reflexivity.
Qed.

Lemma process_tag_uncalibrated st t st' o :
  process_tag st t = Ok (st', o) -> calibrated st' = false ->
  robots st' = robots st.
Proof.
  intros Hp Hc. destruct (calibrated st) eqn:Ec.
  - pose proof (process_tag_calibrated _ _ _ _ Ec Hp) as E.
    unfold calib_fields in E. congruence.
  - unfold process_tag in Hp. rewrite Ec in Hp.
    destruct (tag_id t =? 0); inversion Hp; subst; [|reflexivity].
    destruct (num_corner_tags st =? 0); reflexivity.
Qed.

Lemma process_dets_uncalibrated st dets st' ops :
  process_dets st dets = Ok (st', ops) -> calibrated st' = false ->
  robots st' = robots st.
Proof.
  revert st ops. induction dets as [|[id cs] ds IH]; intros st ops Hp Hc; simpl in Hp.
  - inversion Hp; subst. reflexivity.
  - destruct (mk_tag id cs) as [t|e]; [|discriminate]. simpl in Hp.
    destruct (process_tag st t) as [[st1 o1]|e] eqn:E1; [|discriminate]. simpl in Hp.
    destruct (process_dets st1 ds) as [[st2 o2]|e] eqn:E2; [|discriminate]. simpl in Hp.
    inversion Hp; subst.
    assert (Hc1 : calibrated st1 = false).
    { destruct (calibrated st1) eqn:Ec1; [|reflexivity].
      pose proof (process_dets_calibrated _ _ _ _ Ec1 E2) as E.
      unfold calib_fields in E. congruence. }
    rewrite (IH _ _ E2 Hc). exact (process_tag_uncalibrated _ _ _ _ E1 Hc1).
Qed.

(** The dict a cycle publishes is the neighbour pass run on a fresh dict. *)
Lemma run_cycle_robots st dets st' ops :
  run_cycle st dets = Ok (st', ops) ->
  exists rs, fresh_robots rs /\ robots st' = fold_left exec_op (neighbour_ops rs) rs.
Proof.
  intros Hr. unfold run_cycle, write in Hr. cbn [fst snd exec_op] in Hr.
  assert (Hf0 : fresh_robots []) by (split; [constructor|intros k r []]).
  destruct dets as [|d ds].
  - inversion Hr; subst. exists []. split; [exact Hf0|reflexivity].
  - destruct (process_dets (with_robots st []) (d :: ds)) as [[st1 o1]|e] eqn:E;
      [|discriminate].
    simpl in Hr. pose proof (process_dets_fresh (with_robots st []) _ _ _ Hf0 E) as Hf1.
    destruct (calibrated st1) eqn:Ec; inversion Hr; subst.
    + exists (robots st1). split; [exact Hf1|reflexivity].
    + exists []. split; [exact Hf0|].
      exact (process_dets_uncalibrated _ _ _ _ E Ec).
Qed.

(** ** C7: no robot is its own neighbour *)

(** C7: in the robot dict a cycle publishes, no robot's id is a key of
    its own [neighbours]. *)
Theorem C7_no_self_neighbour st dets st' ops R :
  run_cycle st dets = Ok (st', ops) ->
  In R (map snd (robots st')) ->
  ~ In (rid R) (map fst (neighbours R)).
Proof.
  intros Hr Hin.
  destruct (run_cycle_robots _ _ _ _ Hr) as [rs [Hf Hrs]].
  apply in_map_iff in Hin as [[a R'] [Eq Hin]]. simpl in Eq. subst R'.
  assert (Hnd : NoDup (map fst (robots st'))).
  { rewrite Hrs, neighbour_pass_keys. exact (proj1 Hf). }
  pose proof (dict_get_NoDup_In _ _ _ Hnd Hin) as Hg. rewrite Hrs in Hg.
  destruct (neighbour_pass_get _ _ _ Hf Hg) as [ra [Ea ->]].
  simpl. rewrite (proj1 (proj2 Hf _ _ (dict_get_In _ _ _ Ea))).
  apply dict_get_none_not_in.
  rewrite (fill_get _ _ _ _ (proj1 Hf)), Ea, Z.eqb_refl. reflexivity.
Qed.

(** What robot [A] (key [a]) records about robot key [b] in a published dict. *)
Lemma published_neighbour st dets st' ops a A b B :
  run_cycle st dets = Ok (st', ops) ->
  dict_get a (robots st') = Some A -> dict_get b (robots st') = Some B -> a <> b ->
  rid A = a /\ rid B = b /\
  dict_get b (neighbours A) =
    neighbour_reading (set_neighbours A []) (set_neighbours B []).
Proof.
  intros Hr Ha Hb Hab.
  destruct (run_cycle_robots _ _ _ _ Hr) as [rs [Hf Hrs]]. rewrite Hrs in Ha, Hb.
  destruct (neighbour_pass_get _ _ _ Hf Ha) as [ra [Ea ->]].
  destruct (neighbour_pass_get _ _ _ Hf Hb) as [rb [Eb ->]].
  simpl. rewrite (proj1 (proj2 Hf _ _ (dict_get_In _ _ _ Ea))).
  rewrite (proj1 (proj2 Hf _ _ (dict_get_In _ _ _ Eb))).
  split; [reflexivity|split; [reflexivity|]].
  rewrite (fill_get _ _ _ _ (proj1 Hf)), Eb.
  replace (negb (a =? b)) with true by (symmetry; apply negb_true_iff, Z.eqb_neq, Hab).
  unfold neighbour_reading. simpl. destruct (Rltb _ _); reflexivity.
Qed.

(** ** C8: the neighbour relation *)

(** C8: in the dict a cycle publishes, for robots [A] (key [a]) and [B]
    (key [b]) with [a <> b], [b] is a key of [A.neighbours] exactly when
    the Euclidean distance between their metric positions is strictly
    below [A.sensor_range]; the reading then holds that distance as its
    range, [degrees(atan2(B.y - A.y, B.x - A.x))] as its bearing and [B]'s
    own orientation. *)
Theorem C8_neighbour_relation st dets st' ops a A b B :
  run_cycle st dets = Ok (st', ops) ->
  dict_get a (robots st') = Some A -> dict_get b (robots st') = Some B -> a <> b ->
  rid A = a /\ rid B = b /\
  ((exists rd, dict_get b (neighbours A) = Some rd) <->
     (math_dist (px (position A)) (py (position A)) (px (position B)) (py (position B))
        < sensor_range A)%R) /\
  (forall rd, dict_get b (neighbours A) = Some rd ->
     range rd = math_dist (px (position A)) (py (position A))
                          (px (position B)) (py (position B)) /\
     bearing rd = math_degrees (math_atan2 (py (position B) - py (position A))
                                           (px (position B) - px (position A))) /\
     sr_orientation rd = orientation B).
Proof.
  intros Hr Ha Hb Hab.
  destruct (published_neighbour _ _ _ _ _ _ _ _ Hr Ha Hb Hab) as [HA [HB Hn]].
  split; [exact HA|split; [exact HB|]]. rewrite Hn.
  unfold neighbour_reading, Rltb. simpl.
  destruct (Rlt_dec _ _) as [Hlt|Hnlt]; split.
  - split; [intros _; exact Hlt|intros _; eexists; reflexivity].
  - intros rd E. inversion E; subst. simpl. repeat split.
  - split; [intros [rd E]; discriminate|intros H; contradiction].
  - intros rd E. discriminate.
Qed.

(** ** A calibrated cycle with two robots

    Robot 1 at pixel (0, 0) and robot 2 at pixel (100, 0), with 500 pixels
    per metre: metric positions (0, 0) and (0.2, 0). *)

Definition two_robot_dets : list (Z * list (Q * Q)) :=
  [(1, square_at 0 0); (2, square_at 100 0)].

Definition tag_at (id cx cy : Z) : Tag := ok_or robot_tag_7 (mk_tag id (square_at cx cy)).

Definition robot_one : Robot := mk_robot (tag_at 1 0 0) (mkPosR (0 / 500) (0 / 500)).
Definition robot_two : Robot := mk_robot (tag_at 2 100 0) (mkPosR (100 / 500) (0 / 500)).
Definition two_robots : list (Z * Robot) := [(1, robot_one); (2, robot_two)].

Definition two_robot_result : Tracker :=
  with_robots calibrated_state (fold_left exec_op (neighbour_ops two_robots) two_robots).

Definition two_robot_ops : list store_op :=
  [Rebind; SetItem 1 robot_one; SetItem 2 robot_two] ++ neighbour_ops two_robots.

Lemma two_robot_cycle :
  run_cycle calibrated_state two_robot_dets = Ok (two_robot_result, two_robot_ops).
Proof.
  unfold run_cycle, write. cbn -[py_div Rdiv IZR neighbour_ops].
  repeat (rewrite py_div_ok by (unfold calibrated_state; simpl; lra);
          cbn -[py_div Rdiv IZR neighbour_ops]).
  reflexivity.
Qed.

Definition get_or (d : Robot) (o : option Robot) : Robot :=
  match o with Some r => r | None => d end.

Lemma two_robot_get k : (k = 1 \/ k = 2) ->
  dict_get k (robots two_robot_result) =
  Some (get_or robot_one (dict_get k (robots two_robot_result))).
Proof.
  intros Hk. destruct (dict_get k (robots two_robot_result)) eqn:E; [reflexivity|].
  exfalso. apply (dict_get_none_not_in _ _ E).
  unfold two_robot_result, with_robots. cbn [robots]. rewrite neighbour_pass_keys.
  simpl. lia.
Qed.

Definition published_one : Robot := get_or robot_one (dict_get 1 (robots two_robot_result)).
Definition published_two : Robot := get_or robot_one (dict_get 2 (robots two_robot_result)).

Lemma C7_no_self_neighbour_witness :
  run_cycle calibrated_state two_robot_dets = Ok (two_robot_result, two_robot_ops) /\
  In published_one (map snd (robots two_robot_result)) /\
  ~ In (rid published_one) (map fst (neighbours published_one)).
Proof.
  pose proof two_robot_cycle as Hr.
  assert (Hin : In published_one (map snd (robots two_robot_result))).
  { apply (in_map snd _ (1, published_one)), dict_get_In, two_robot_get. left. reflexivity. }
  split; [exact Hr|split; [exact Hin|]].
  exact (C7_no_self_neighbour _ _ _ _ _ Hr Hin).
Defined.

Lemma C8_neighbour_relation_witness :
  run_cycle calibrated_state two_robot_dets = Ok (two_robot_result, two_robot_ops) /\
  dict_get 1 (robots two_robot_result) = Some published_one /\
  dict_get 2 (robots two_robot_result) = Some published_two /\
  rid published_one = 1.
Proof.
  pose proof two_robot_cycle as Hr.
  pose proof (two_robot_get 1 ltac:(lia)) as H1.
  pose proof (two_robot_get 2 ltac:(lia)) as H2.
  split; [exact Hr|split; [exact H1|split; [exact H2|]]].
  exact (proj1 (C8_neighbour_relation _ _ _ _ _ _ _ _ Hr H1 H2 ltac:(lia))).
Defined.

(** ** What a concurrent reader sees *)

Lemma process_tag_log st t st' o :
  process_tag st t = Ok (st', o) -> robots st' = fold_left exec_op o (robots st).
Proof.
  intros Hp. unfold process_tag in Hp. destruct (calibrated st).
  - destruct (negb (tag_id t =? 0)).
    + destruct (py_div (IZR (x (centre t))) (scale_factor st)); [|discriminate]. simpl in Hp.
      destruct (py_div (IZR (y (centre t))) (scale_factor st)); [|discriminate]. simpl in Hp.
      inversion Hp; subst. reflexivity.
    + inversion Hp; subst. reflexivity.
  - destruct (tag_id t =? 0); inversion Hp; subst; [|reflexivity].
    destruct (num_corner_tags st =? 0); reflexivity.
Qed.

Lemma process_dets_log st dets st' ops :
  process_dets st dets = Ok (st', ops) -> robots st' = fold_left exec_op ops (robots st).
Proof.
  revert st ops. induction dets as [|[id cs] ds IH]; intros st ops Hp; simpl in Hp.
  - inversion Hp; subst. reflexivity.
  - destruct (mk_tag id cs) as [t|e]; [|discriminate]. simpl in Hp.
    destruct (process_tag st t) as [[st1 o1]|e] eqn:E1; [|discriminate]. simpl in Hp.
    destruct (process_dets st1 ds) as [[st2 o2]|e] eqn:E2; [|discriminate]. simpl in Hp.
    inversion Hp; subst. simpl. rewrite fold_left_app, <- (process_tag_log _ _ _ _ E1).
    exact (IH _ _ E2).
Qed.

(** A cycle starts by rebinding [tracker.robots] to a fresh dict, and the
    dict it publishes is what its writes build from there. *)
Lemma run_cycle_log st dets st' ops :
  run_cycle st dets = Ok (st', ops) ->
  exists rest, ops = Rebind :: rest /\ robots st' = fold_left exec_op rest [].
Proof.
  intros Hr. unfold run_cycle, write in Hr. cbn [fst snd exec_op] in Hr.
  destruct dets as [|d ds].
  - inversion Hr; subst. exists []. split; reflexivity.
  - destruct (process_dets (with_robots st []) (d :: ds)) as [[st1 o1]|e] eqn:E;
      [|discriminate].
    simpl in Hr. pose proof (process_dets_log _ _ _ _ E) as H1. simpl in H1.
    destruct (calibrated st1); inversion Hr; subst; eexists; (split; [reflexivity|]).
    + simpl. rewrite fold_left_app, <- H1. reflexivity.
    + exact H1.
Qed.

Lemma states_prefix pre ops sh0 :
  In (fold_left exec_op pre sh0) (states sh0 (pre ++ ops)).
Proof.
  revert sh0. induction pre as [|o pre IH]; intros sh0.
  - destruct ops; left; reflexivity.
  - simpl. right. apply IH.
Qed.

(** Everything a reader sees is one of the values the dict goes through. *)
Lemma reachable_reads sh0 ops0 s1 s2 :
  reachable s1 s2 ->
  (exists pre, ops0 = pre ++ pending s1 /\ shared s1 = fold_left exec_op pre sh0) ->
  (forall o, In o (seen s1) -> In o (states sh0 ops0)) ->
  forall o, In o (seen s2) -> In o (states sh0 ops0).
Proof.
  induction 1 as [s|s1 s2 s3 Hst _ IH]; intros Hpre Hseen; [exact Hseen|].
  apply IH.
  - destruct Hpre as [pre [Ep Es]]. inversion Hst; subst; simpl in *.
    + exists (pre ++ [o]). rewrite <- app_assoc, fold_left_app, <- Es. split; reflexivity.
    + exists pre. split; first [reflexivity|assumption].
  - destruct Hpre as [pre [Ep Es]]. inversion Hst; subst; simpl in *; [exact Hseen|].
    intros o Ho. apply in_app_or in Ho as [Ho|[<-|[]]]; [exact (Hseen o Ho)|].
    rewrite Es. apply states_prefix.
Qed.

(** Only the calibration part of the state matters to a cycle. *)
Lemma run_cycle_calib_only st1 st2 dets :
  calib_fields st1 = calib_fields st2 -> run_cycle st1 dets = run_cycle st2 dets.
Proof.
  intros E. assert (Ew : with_robots st1 [] = with_robots st2 []).
  { unfold calib_fields in E. inversion E. unfold with_robots. congruence. }
  unfold run_cycle, write. cbn [fst snd exec_op]. rewrite Ew. reflexivity.
Qed.

(** The tracker runs a second cycle over the same two robots; a reader
    reads [tracker.robots] right after robot 1 has been stored. *)
Lemma second_two_robot_cycle :
  run_cycle two_robot_result two_robot_dets = Ok (two_robot_result, two_robot_ops).
Proof.
  rewrite (run_cycle_calib_only _ calibrated_state) by reflexivity.
  exact two_robot_cycle.
Qed.

Definition partial_read_state : Sys :=
  mkSys [(1, robot_one)] (SetItem 2 robot_two :: neighbour_ops two_robots)
        [[(1, robot_one)]].

Lemma partial_read_reachable :
  reachable (mkSys (robots two_robot_result) two_robot_ops []) partial_read_state.
Proof.
  eapply reach_step; [apply step_tracker|].
  eapply reach_step; [apply step_tracker|].
  eapply reach_step; [apply step_reader|].
  apply reach_refl.
Qed.

Lemma two_robot_result_length : List.length (robots two_robot_result) = 2%nat.
Proof.
  unfold two_robot_result, with_robots. cbn [robots].
  rewrite <- (length_map fst), neighbour_pass_keys. reflexivity.
Qed.

(** ** C1: reads of [tracker.robots] during a cycle *)

(** C1 (as stated): every read of the robot dict made while a cycle runs
    returns the complete dict of the previous cycle or the complete dict
    of this one. False: with two robots detected in both cycles, a read
    right after the tracker has stored robot 1 of the new cycle returns a
    dict with robot 1 only. *)
Lemma C1_partial_mapping_observed :
  ~ (forall st dets st' ops s,
        run_cycle st dets = Ok (st', ops) ->
        reachable (mkSys (robots st) ops []) s ->
        forall o, In o (seen s) -> o = robots st \/ o = robots st').
Proof.
  intros H.
  specialize (H _ _ _ _ _ second_two_robot_cycle partial_read_reachable
                [(1, robot_one)] (or_introl eq_refl)).
  pose proof two_robot_result_length as L.
  destruct H as [E|E]; rewrite <- E in L; discriminate L.
Qed.

(** C1 (amended): handlers read [tracker.robots] without any lock. A
    cycle first rebinds it to a fresh empty dict, then stores robots and
    neighbour readings one write at a time. So each (atomic) read returns
    either the previous cycle's complete dict, or one of the values the
    new dict takes as this cycle's writes build it from empty: it may be
    empty or partly built, but it never holds anything of an earlier
    cycle; the last of these values is the dict the cycle publishes. *)
Theorem C1_reads_see_one_cycle st dets st' ops s :
  run_cycle st dets = Ok (st', ops) ->
  reachable (mkSys (robots st) ops []) s ->
  exists rest, ops = Rebind :: rest /\
    fold_left exec_op rest [] = robots st' /\
    forall o, In o (seen s) -> o = robots st \/ In o (states [] rest).
Proof.
  intros Hr Hreach.
  destruct (run_cycle_log _ _ _ _ Hr) as [rest [Eops Ert]].
  exists rest. split; [exact Eops|split; [symmetry; exact Ert|]].
  intros o Ho.
  pose proof (reachable_reads (robots st) ops _ _ Hreach
                (ex_intro _ [] (conj eq_refl eq_refl))
                (fun o (H : In o []) => match H with end) o Ho) as Hin.
  rewrite Eops in Hin. simpl in Hin. destruct Hin as [E|E]; [left; symmetry; exact E|right; exact E].
Qed.

Lemma C1_reads_see_one_cycle_witness :
  run_cycle two_robot_result two_robot_dets = Ok (two_robot_result, two_robot_ops) /\
  reachable (mkSys (robots two_robot_result) two_robot_ops []) partial_read_state /\
  In [(1, robot_one)] (states [] (SetItem 1 robot_one :: SetItem 2 robot_two :: neighbour_ops two_robots)).
Proof.
  pose proof second_two_robot_cycle as Hr.
  pose proof partial_read_reachable as Hreach.
  split; [exact Hr|split; [exact Hreach|]].
  destruct (C1_reads_see_one_cycle _ _ _ _ _ Hr Hreach) as [rest [Eops [_ Hall]]].
  unfold two_robot_ops in Eops. simpl in Eops. inversion Eops; subst rest.
  destruct (Hall [(1, robot_one)] (or_introl eq_refl)) as [E|E]; [|exact E].
  exfalso. pose proof two_robot_result_length as L. rewrite <- E in L. discriminate L.
Defined.

(** ** Handler lemmas *)

Open Scope string_scope.

Lemma obj_get_contains key l v :
  obj_get key l = Some v -> existsb (fun '(k, _) => String.eqb k key) l = true.
Proof.
  revert v. induction l as [|[k w] l IH]; intros v; simpl; [discriminate|].
  destruct (obj_get key l) as [w'|] eqn:E.
  - intros _. rewrite (IH w' eq_refl). apply orb_true_r.
  - destruct (String.eqb k key); [reflexivity|discriminate].
Qed.

(** A JSON object whose [get_robot] value is not a key of the dict. *)
Lemma handle_message_missing_robot rs l v e :
  obj_get "get_robot" l = Some v -> robots_getitem rs v = Err e ->
  handle_message rs (Ok (JObj l)) = Err e.
Proof.
  intros Hg He. unfold handle_message. simpl.
  destruct (existsb (fun '(k, _) => String.eqb k "check_awake") l);
  destruct (existsb (fun '(k, _) => String.eqb k "get_ids") l);
  rewrite (obj_get_contains _ _ _ Hg); simpl; rewrite Hg; simpl; rewrite He; reflexivity.
Qed.

(** ** C2: [get_robot] with an unknown id *)

(** C2 (as stated): a [get_robot] request for an id that is not tracked
    gets a reply (with an error indicator) and the connection goes on
    serving the next requests. False: with no robot tracked,
    [{"get_robot": 7}] followed by [{"check_awake": true}] gets no reply
    at all, and the handler stops on [KeyError]. *)
Lemma C2_unknown_id_no_reply :
  ~ (forall rs id rest,
        dict_get id rs = None ->
        exists reply,
          handler rs (Ok (JObj [("get_robot", JInt id)]) :: rest) =
          (reply :: fst (handler rs rest), snd (handler rs rest))).
Proof.
  intros H.
  destruct (H [] 7 [Ok (JObj [("check_awake", JBool true)])] eq_refl) as [reply E].
  vm_compute in E. discriminate E.
Qed.

(** C2 (amended): when the [get_robot] value of a request is an integer
    id that is not a key of [tracker.robots], the lookup raises
    [KeyError], which nothing catches: no reply is sent for that request
    (not even for its other fields) and the handler ends, so no later
    request on the connection is answered. *)
Theorem C2_unknown_id_ends_handler rs l id rest :
  obj_get "get_robot" l = Some (JInt id) -> dict_get id rs = None ->
  handler rs (Ok (JObj l) :: rest) = ([], Some KeyError).
Proof.
  intros Hg Hn. cbn [handler].
  rewrite (handle_message_missing_robot rs l (JInt id) KeyError Hg);
    [reflexivity|].
  unfold robots_getitem. simpl. rewrite Hn. reflexivity.
Qed.

Lemma C2_unknown_id_ends_handler_witness :
  handler [] [Ok (JObj [("check_awake", JBool true); ("get_robot", JInt 7)]);
              Ok (JObj [("check_awake", JBool true)])] = ([], Some KeyError).
Proof.
  apply (C2_unknown_id_ends_handler [] [("check_awake", JBool true); ("get_robot", JInt 7)]
           7 [Ok (JObj [("check_awake", JBool true)])]); reflexivity.
Defined.

(** ** C4: packets that are not JSON objects *)

(** JSON values Python's [in] cannot search. *)
Definition json_scalar (v : json) : bool :=
  match v with
  | JNull | JBool _ | JInt _ | JFloat _ => true
  | _ => false
  end.

(** C4 (as stated): a packet that is not valid JSON, or not a JSON object,
    is dropped and the connection keeps serving the later requests.
    False: an invalid packet followed by [{"check_awake": true}] ends the
    handler with [JSONDecodeError], and the second request is never
    answered. *)
Lemma C4_bad_packet_ends_connection :
  ~ (forall rs p rest,
        (p = Err JSONDecodeError \/ exists v, p = Ok v /\ forall l, v <> JObj l) ->
        handler rs (p :: rest) = handler rs rest).
Proof.
  intros H.
  specialize (H [] (Err JSONDecodeError) [Ok (JObj [("check_awake", JBool true)])]
                (or_introl eq_refl)).
  vm_compute in H. discriminate H.
Qed.

(** The object a packet that decodes to a string or an array is answered
    as: one field per recognised name other than [get_robot] that Python's
    [in] finds in it (a substring of the string, or an element of the
    array), in the order the handler tests them. *)
Definition found_fields (m : json) : list (string * json) :=
  flat_map (fun k => match py_contains k m with
                     | Ok true => [(k, JBool true)]
                     | _ => []
                     end)
           ["check_awake"; "get_ids"; "get_robots"].

Lemma non_object_as_fields rs m :
  match m with JStr _ | JArr _ => True | _ => False end ->
  py_contains "get_robot" m = Ok false ->
  handle_message rs (Ok m) = handle_message rs (Ok (JObj (found_fields m))).
Proof.
  intros Hm Hg. destruct m as [| | | |s|a|o]; try contradiction;
    inversion Hg as [Hg']; unfold found_fields, handle_message;
    cbn [bind py_contains flat_map]; rewrite Hg';
    repeat match goal with
           | |- context [if ?b then _ else _] =>
               lazymatch b with
               | context [s] => destruct b
               | context [a] => destruct b
               end
           end;
    reflexivity.
Qed.

(** C4 (amended): a packet that is not valid JSON makes [json.loads]
    raise [JSONDecodeError]; one that decodes to a number, a boolean or
    null makes the first [in] test raise [TypeError]. Either way no reply
    is sent and the handler ends, so no later packet on the connection is
    answered. A packet that decodes to a string or an array passes the
    [in] tests, which look for the field names in it (substring or
    element test). If ["get_robot"] is found, [message["get_robot"]]
    raises [TypeError]: no reply, and the handler ends. Otherwise the
    packet is answered as the object whose fields are the names found,
    and the handler goes on; e.g. the string ["check_awake"] is answered
    with [awake]. *)
Theorem C4_bad_packet_ends_handler rs rest :
  handler rs (Err JSONDecodeError :: rest) = ([], Some JSONDecodeError) /\
  (forall v, json_scalar v = true -> handler rs (Ok v :: rest) = ([], Some TypeError)) /\
  (forall m, match m with JStr _ | JArr _ => True | _ => False end ->
     (py_contains "get_robot" m = Ok true -> handler rs (Ok m :: rest) = ([], Some TypeError)) /\
     (py_contains "get_robot" m = Ok false ->
        handler rs (Ok m :: rest) = handler rs (Ok (JObj (found_fields m)) :: rest))) /\
  handler rs (Ok (JStr "check_awake") :: rest) =
    ([(KStr "awake", VBool true)] :: fst (handler rs rest), snd (handler rs rest)).
Proof.
  split; [reflexivity|split; [|split]].
  - intros v Hv. destruct v; try discriminate Hv; reflexivity.
  - intros m Hm. split.
    + intros Hg. cbn [handler].
      assert (E : handle_message rs (Ok m) = Err TypeError).
      { destruct m as [| | | |s|a|o]; try contradiction;
          inversion Hg as [Hg']; unfold handle_message; cbn [bind py_contains]; rewrite Hg';
          repeat match goal with |- context [if ?b then _ else _] => destruct b end;
          reflexivity. }
      rewrite E. reflexivity.
    + intros Hg. cbn [handler]. rewrite (non_object_as_fields rs m Hm Hg). reflexivity.
  - simpl. destruct (handler rs rest). reflexivity.
Qed.

Lemma C4_bad_packet_ends_handler_witness :
  handler [] [Ok (JInt 5); Ok (JObj [("check_awake", JBool true)])] = ([], Some TypeError) /\
  handler [] [Ok (JStr "get_robots"); Ok (JObj [("check_awake", JBool true)])] =
    ([], Some TypeError) /\
  handler [] [Ok (JArr [JStr "get_ids"; JInt 3]); Ok (JObj [("check_awake", JBool true)])] =
    handler [] [Ok (JObj [("get_ids", JBool true)]); Ok (JObj [("check_awake", JBool true)])].
Proof.
  pose proof (C4_bad_packet_ends_handler [] [Ok (JObj [("check_awake", JBool true)])]) as H.
  destruct H as [_ [Hs [Hn _]]]. split; [|split].
  - apply Hs. reflexivity.
  - apply (proj1 (Hn (JStr "get_robots") I)). reflexivity.
  - apply (proj2 (Hn (JArr [JStr "get_ids"; JInt 3]) I)). reflexivity.
Defined.

Close Scope string_scope.

(** * Further properties of the tracker and the handler *)

(** ** Angles in degrees *)

Lemma atan_nonpos r : (r <= 0)%R -> (atan r <= 0)%R.
Proof.
  intros H. destruct (Rle_lt_or_eq_dec r 0 H) as [Hl| ->].
  - apply Rlt_le. rewrite <- atan_0. apply atan_increasing, Hl.
  - rewrite atan_0. apply Rle_refl.
Qed.

Lemma atan_pos r : (0 < r)%R -> (0 < atan r)%R.
Proof. intros H. rewrite <- atan_0. apply atan_increasing, H. Qed.

Lemma math_atan2_range y x : (- PI < math_atan2 y x <= PI)%R.
Proof.
  pose proof PI_RGT_0 as HPI. unfold math_atan2.
  destruct (Rlt_dec 0 x) as [Hx|Hx].
  - pose proof (atan_bound (y / x)). lra.
  - destruct (Rlt_dec x 0) as [Hx'|Hx'].
    + assert (Hi : (/ x < 0)%R) by (apply Rinv_lt_0_compat, Hx').
      pose proof (atan_bound (y / x)) as B.
      destruct (Rle_dec 0 y) as [Hy|Hy].
      * assert (Hq : (y / x <= 0)%R) by (unfold Rdiv; nra).
        pose proof (atan_nonpos _ Hq). lra.
      * assert (Hq : (0 < y / x)%R) by (unfold Rdiv; nra).
        pose proof (atan_pos _ Hq). lra.
    + destruct (Rlt_dec 0 y); [lra|]. destruct (Rlt_dec y 0); lra.
Qed.

Lemma math_degrees_range r : (- PI < r <= PI)%R -> (-180 < math_degrees r <= 180)%R.
Proof.
  intros [H1 H2]. pose proof PI_RGT_0 as HPI. unfold math_degrees, Rdiv.
  assert (Hu : (PI * / PI = 1)%R) by (apply Rinv_r; lra).
  assert (Hp : (0 < / PI)%R) by (apply Rinv_0_lt_compat, HPI).
  pose proof (Rmult_lt_0_compat (r + PI) (/ PI) ltac:(lra) Hp) as P1.
  pose proof (Rmult_le_pos (PI - r) (/ PI) ltac:(lra) (Rlt_le _ _ Hp)) as P2.
  split; nra.
Qed.

Lemma math_dist_sym a1 a2 b1 b2 : math_dist a1 a2 b1 b2 = math_dist b1 b2 a1 a2.
Proof. unfold math_dist. f_equal. ring. Qed.

Lemma math_dist_nonneg a1 a2 b1 b2 : (0 <= math_dist a1 a2 b1 b2)%R.
Proof. apply sqrt_pos. Qed.

(** ** Tags *)

Lemma mk_tag_id id cs t : mk_tag id cs = Ok t -> tag_id t = id.
Proof.
  unfold mk_tag.
  destruct (corner_at cs 0); [|discriminate]. destruct (corner_at cs 1); [|discriminate].
  destruct (corner_at cs 2); [|discriminate]. destruct (corner_at cs 3); [|discriminate].
  intros H. inversion H. reflexivity.
Qed.

Lemma mk_tag_fields id cs t :
  mk_tag id cs = Ok t ->
  x (centre t) = Z.quot (x (tl t) + x (tr t) + x (br t) + x (bl t)) 4 /\
  y (centre t) = Z.quot (y (tl t) + y (tr t) + y (br t) + y (bl t)) 4 /\
  x (front t) = Z.quot (x (tl t) + x (tr t)) 2 /\
  y (front t) = Z.quot (y (tl t) + y (tr t)) 2 /\
  angle t = math_degrees (math_atan2 (IZR (y (front t) - y (centre t)))
                                     (IZR (x (front t) - x (centre t)))).
Proof.
  unfold mk_tag.
  destruct (corner_at cs 0); [|discriminate]. destruct (corner_at cs 1); [|discriminate].
  destruct (corner_at cs 2); [|discriminate]. destruct (corner_at cs 3); [|discriminate].
  intros H. inversion H; subst. simpl. repeat split.
Qed.

(** Truncating division of a sum lying between [n * m] and [n * M]. *)
Lemma quot_between n s m M : 0 < n -> n * m <= s <= n * M -> m <= Z.quot s n <= M.
Proof.
  intros Hn Hs. pose proof (Z.quot_rem' s n) as E.
  pose proof (Z.rem_bound_abs s n ltac:(lia)) as B.
  rewrite (Z.abs_eq n) in B by lia.
  split.
  - destruct (Z.le_gt_cases m (Z.quot s n)) as [H|H]; [exact H|exfalso].
    assert (n * (Z.quot s n + 1) <= n * m) by (apply Z.mul_le_mono_nonneg_l; lia). lia.
  - destruct (Z.le_gt_cases (Z.quot s n) M) as [H|H]; [exact H|exfalso].
    assert (n * (M + 1) <= n * Z.quot s n) by (apply Z.mul_le_mono_nonneg_l; lia). lia.
Qed.

(** Lines 29-40: the centre of a tag lies within the bounding box of its
    four (truncated) corners, and its front between the top-left and the
    top-right corner, on each axis. *)
Theorem tag_centre_within_corners id cs t :
  mk_tag id cs = Ok t ->
  Z.min (Z.min (x (tl t)) (x (tr t))) (Z.min (x (br t)) (x (bl t))) <= x (centre t)
    <= Z.max (Z.max (x (tl t)) (x (tr t))) (Z.max (x (br t)) (x (bl t))) /\
  Z.min (Z.min (y (tl t)) (y (tr t))) (Z.min (y (br t)) (y (bl t))) <= y (centre t)
    <= Z.max (Z.max (y (tl t)) (y (tr t))) (Z.max (y (br t)) (y (bl t))) /\
  Z.min (x (tl t)) (x (tr t)) <= x (front t) <= Z.max (x (tl t)) (x (tr t)) /\
  Z.min (y (tl t)) (y (tr t)) <= y (front t) <= Z.max (y (tl t)) (y (tr t)).
Proof.
  intros Ht. destruct (mk_tag_fields _ _ _ Ht) as [Ecx [Ecy [Efx [Efy _]]]].
  rewrite Ecx, Ecy, Efx, Efy.
  split; [|split; [|split]]; apply quot_between; lia.
Qed.

Lemma tag_centre_within_corners_witness :
  mk_tag 7 (square_at 500 0) = Ok (tag_at 7 500 0) /\
  x (centre (tag_at 7 500 0)) <= Z.max (Z.max (x (tl (tag_at 7 500 0))) (x (tr (tag_at 7 500 0))))
                                       (Z.max (x (br (tag_at 7 500 0))) (x (bl (tag_at 7 500 0)))).
Proof.
  assert (H : mk_tag 7 (square_at 500 0) = Ok (tag_at 7 500 0)) by reflexivity.
  split; [exact H|].
  exact (proj2 (proj1 (tag_centre_within_corners _ _ _ H))).
Defined.

(** Line 43: the heading of a tag is in degrees, in (-180, 180]. *)
Theorem tag_heading_range id cs t :
  mk_tag id cs = Ok t -> (-180 < angle t <= 180)%R.
Proof.
  intros Ht. destruct (mk_tag_fields _ _ _ Ht) as [_ [_ [_ [_ ->]]]].
  apply math_degrees_range, math_atan2_range.
Qed.

Lemma tag_heading_range_witness :
  mk_tag 7 (square_at 500 0) = Ok (tag_at 7 500 0) /\ (-180 < angle (tag_at 7 500 0) <= 180)%R.
Proof.
  assert (H : mk_tag 7 (square_at 500 0) = Ok (tag_at 7 500 0)) by reflexivity.
  split; [exact H|]. exact (tag_heading_range _ _ _ H).
Defined.

(** ** The robots a cycle publishes *)

(** The robot [Tracker.run] stores for tag [t] (lines 102-103) when the
    scale factor is [scale]. *)
Definition built_robot (scale : R) (t : Tag) : Robot :=
  mk_robot t (mkPosR (IZR (x (centre t)) / scale) (IZR (y (centre t)) / scale)).

(** Every entry of [rs] is the robot built from one of the detections
    [dets], under its own non-zero id, with a non-zero scale factor. *)
Definition robots_built (scale : R) (dets : list (Z * list (Q * Q)))
  (rs : list (Z * Robot)) : Prop :=
  forall k r, In (k, r) rs ->
    k <> 0 /\ scale <> 0%R /\
    exists cs t, In (k, cs) dets /\ mk_tag k cs = Ok t /\ r = built_robot scale t.

(** Before calibration the dict stays empty; afterwards it holds built
    robots. *)
Definition built_inv (dets : list (Z * list (Q * Q))) (st : Tracker) : Prop :=
  (calibrated st = false /\ robots st = []) \/
  (calibrated st = true /\ robots_built (scale_factor st) dets (robots st)).

Lemma py_div_val a b v : py_div a b = Ok v -> v = (a / b)%R /\ b <> 0%R.
Proof.
  unfold py_div. destruct (Req_EM_T b 0); intros H; inversion H; subst.
  split; [reflexivity|assumption].
Qed.

Lemma process_tag_built D st id cs t st' o :
  mk_tag id cs = Ok t -> In (id, cs) D -> built_inv D st ->
  process_tag st t = Ok (st', o) -> built_inv D st'.
Proof.
  intros Ht Hin Hinv Hp. pose proof (mk_tag_id _ _ _ Ht) as Hid. subst id.
  unfold built_inv in *. unfold process_tag in Hp.
  destruct Hinv as [[Hc Hr]|[Hc Hb]]; rewrite Hc in Hp.
  - destruct (tag_id t =? 0); inversion Hp; subst; [|left; split; assumption].
    destruct (num_corner_tags st =? 0);
      unfold incr_corner_tags, record_first_corner, calibrate_second_corner; simpl.
    + left. split; assumption.
    + right. split; [reflexivity|]. rewrite Hr. intros k r [].
  - destruct (negb (tag_id t =? 0)) eqn:Ez.
    + destruct (py_div (IZR (x (centre t))) (scale_factor st)) as [vx|] eqn:Ex;
        [|discriminate]. simpl in Hp.
      destruct (py_div (IZR (y (centre t))) (scale_factor st)) as [vy|] eqn:Ey;
        [|discriminate]. simpl in Hp.
      unfold write in Hp. inversion Hp; subst.
      apply py_div_val in Ex as [-> Hs]. apply py_div_val in Ey as [-> _].
      right. split; [exact Hc|]. simpl.
      intros k r Hk. destruct (dict_set_In _ _ _ _ _ Hk) as [[-> ->]|H].
      * apply negb_true_iff, Z.eqb_neq in Ez.
        split; [exact Ez|split; [exact Hs|]].
        exists cs, t. split; [exact Hin|split; [exact Ht|reflexivity]].
      * exact (Hb _ _ H).
    + inversion Hp; subst. right. split; assumption.
Qed.

Lemma process_dets_built D st dets st' ops :
  incl dets D -> built_inv D st -> process_dets st dets = Ok (st', ops) -> built_inv D st'.
Proof.
  revert st ops. induction dets as [|[id cs] ds IH]; intros st ops Hincl Hinv Hp; simpl in Hp.
  - inversion Hp; subst. exact Hinv.
  - destruct (mk_tag id cs) as [t|e] eqn:Et; [|discriminate]. simpl in Hp.
    destruct (process_tag st t) as [[st1 o1]|e] eqn:E1; [|discriminate]. simpl in Hp.
    destruct (process_dets st1 ds) as [[st2 o2]|e] eqn:E2; [|discriminate]. simpl in Hp.
    inversion Hp; subst.
    apply (IH st1 o2); [intros d Hd; apply Hincl; right; exact Hd| |exact E2].
    apply (process_tag_built D st id cs t st1 o1 Et); [apply Hincl; left; reflexivity|exact Hinv|exact E1].
Qed.

(** The dict a cycle publishes is the neighbour pass run on robots built
    from this cycle's detections. *)
Lemma run_cycle_built st dets st' ops :
  run_cycle st dets = Ok (st', ops) ->
  exists rs, fresh_robots rs /\ robots_built (scale_factor st') dets rs /\
    robots st' = fold_left exec_op (neighbour_ops rs) rs.
Proof.
  intros Hr. unfold run_cycle, write in Hr. cbn [fst snd exec_op] in Hr.
  assert (Hf0 : fresh_robots []) by (split; [constructor|intros k r []]).
  destruct dets as [|d ds].
  - inversion Hr; subst. exists []. split; [exact Hf0|split; [intros k r []|reflexivity]].
  - destruct (process_dets (with_robots st []) (d :: ds)) as [[st1 o1]|e] eqn:E;
      [|discriminate].
    simpl in Hr.
    assert (H0 : built_inv (d :: ds) (with_robots st [])).
    { unfold built_inv. simpl. destruct (calibrated st).
      - right. split; [reflexivity|intros k r []].
      - left. split; reflexivity. }
    pose proof (process_dets_built (d :: ds) _ _ _ _ (incl_refl _) H0 E) as H1.
    pose proof (process_dets_fresh (with_robots st []) _ _ _ Hf0 E) as Hf1.
    destruct (calibrated st1) eqn:Ec; inversion Hr; subst.
    + exists (robots st1). destruct H1 as [[Hc _]|[_ Hb]]; [congruence|].
      split; [exact Hf1|split; [exact Hb|reflexivity]].
    + exists []. destruct H1 as [[_ Hr1]|[Hc _]]; [|congruence].
      split; [exact Hf0|split; [intros k r []|simpl; exact Hr1]].
Qed.

Lemma published_entry st dets st' ops a A :
  run_cycle st dets = Ok (st', ops) -> dict_get a (robots st') = Some A ->
  exists rs ra, fresh_robots rs /\ robots_built (scale_factor st') dets rs /\
    map fst (robots st') = map fst rs /\ dict_get a rs = Some ra /\
    A = set_neighbours ra
          (fill (fun oid o => if negb (Z.eqb a oid) then neighbour_reading ra o else None)
                rs []).
Proof.
  intros Hr Ha. destruct (run_cycle_built _ _ _ _ Hr) as [rs [Hf [Hb Hrs]]].
  rewrite Hrs in Ha. destruct (neighbour_pass_get _ _ _ Hf Ha) as [ra [Ea EA]].
  exists rs, ra. split; [exact Hf|split; [exact Hb|split; [|split; assumption]]].
  rewrite Hrs. apply neighbour_pass_keys.
Qed.

(** Lines 101-103 and 136-146: a robot published under key [k] is the
    robot built from a detection of id [k] (never the corner id 0): it
    carries that tag, the tag's heading as orientation, the 0.3 m sensing
    radius, and the tag centre divided by the (non-zero) scale factor as
    position. *)
Theorem published_robot_fields st dets st' ops k R :
  run_cycle st dets = Ok (st', ops) -> dict_get k (robots st') = Some R ->
  k <> 0 /\ rid R = k /\ tag_id (tag R) = k /\
  (exists cs, In (k, cs) dets /\ mk_tag k cs = Ok (tag R)) /\
  orientation R = angle (tag R) /\ sensor_range R = (3 / 10)%R /\
  scale_factor st' <> 0%R /\
  position R = mkPosR (IZR (x (centre (tag R))) / scale_factor st')
                      (IZR (y (centre (tag R))) / scale_factor st').
Proof.
  intros Hr Hk. destruct (published_entry _ _ _ _ _ _ Hr Hk) as [rs [ra [_ [Hb [_ [Ea ->]]]]]].
  destruct (Hb _ _ (dict_get_In _ _ _ Ea)) as [Hk0 [Hs [cs [t [Hin [Ht ->]]]]]].
  pose proof (mk_tag_id _ _ _ Ht) as Hid. cbn.
  split; [exact Hk0|split; [exact Hid|split; [exact Hid|split]]].
  - exists cs. split; assumption.
  - split; [reflexivity|split; [reflexivity|split; [exact Hs|reflexivity]]].
Qed.

Lemma published_robot_fields_witness :
  run_cycle calibrated_state two_robot_dets = Ok (two_robot_result, two_robot_ops) /\
  dict_get 1 (robots two_robot_result) = Some published_one /\
  sensor_range published_one = (3 / 10)%R.
Proof.
  pose proof two_robot_cycle as Hr.
  pose proof (two_robot_get 1 ltac:(lia)) as H1.
  split; [exact Hr|split; [exact H1|]].
  exact (proj1 (proj2 (proj2 (proj2 (proj2 (proj2
           (published_robot_fields _ _ _ _ _ _ Hr H1))))))).
Defined.

Lemma neighbour_reading_bounds r o rd :
  neighbour_reading r o = Some rd ->
  (0 <= range rd < sensor_range r)%R /\ (-180 < bearing rd <= 180)%R /\
  sr_orientation rd = orientation o.
Proof.
  unfold neighbour_reading, Rltb. destruct (Rlt_dec _ _) as [Hlt|]; [|discriminate].
  intros H. inversion H; subst. simpl.
  split; [split; [apply math_dist_nonneg|exact Hlt]|split; [|reflexivity]].
  apply math_degrees_range, math_atan2_range.
Qed.

(** Lines 142-146 and 168-169: every neighbour id of a published robot is
    itself a key of the published dict (so the drawing loop's lookup
    [self.robots[neighbour_id]] always succeeds), and each reading has a
    range in [0, 0.3), a bearing in (-180, 180] degrees and, as
    orientation, the neighbour's heading. *)
Theorem neighbour_readings_in_range st dets st' ops a A b rd :
  run_cycle st dets = Ok (st', ops) ->
  dict_get a (robots st') = Some A -> dict_get b (neighbours A) = Some rd ->
  (exists B, dict_get b (robots st') = Some B /\ sr_orientation rd = orientation B) /\
  (0 <= range rd < 3 / 10)%R /\ (-180 < bearing rd <= 180)%R.
Proof.
  intros Hr Ha Hn.
  destruct (run_cycle_built _ _ _ _ Hr) as [rs [Hf [Hb Hrs]]].
  pose proof Ha as Ha'. rewrite Hrs in Ha'.
  destruct (neighbour_pass_get _ _ _ Hf Ha') as [ra [Ea ->]].
  cbn [neighbours set_neighbours] in Hn. rewrite (fill_get _ _ _ _ (proj1 Hf)) in Hn.
  destruct (dict_get b rs) as [rb|] eqn:Eb; [|discriminate].
  destruct (negb (a =? b)); [|discriminate].
  destruct (neighbour_reading ra rb) as [rd'|] eqn:En; inversion Hn; subst.
  destruct (neighbour_reading_bounds _ _ _ En) as [Hrg [Hbr Hor]].
  destruct (Hb _ _ (dict_get_In _ _ _ Ea)) as [_ [_ [cs [t [_ [_ Era]]]]]].
  assert (Hsr : sensor_range ra = (3 / 10)%R) by (rewrite Era; reflexivity).
  rewrite Hsr in Hrg. split; [|split; assumption].
  rewrite Hrs. rewrite (fold_exec_set_neighbours _ _ (neighbour_ops_set_neighbour rs)).
  rewrite dict_get_map_entries, Eb. eexists. split; [reflexivity|]. exact Hor.
Qed.

(** In the two-robot cycle, each published robot is the stored one with
    its neighbours added. *)
Lemma fresh_two_robots : fresh_robots two_robots.
Proof.
  split.
  - simpl. constructor; [simpl; lia|constructor; [intros []|constructor]].
  - intros k r [E|[E|[]]]; inversion E; subst; split; reflexivity.
Qed.

Lemma published_two_robots k r nb :
  dict_get k two_robots = Some r ->
  dict_get k (robots two_robot_result) = Some nb ->
  exists l, nb = set_neighbours r l.
Proof.
  intros Hk Hnb. unfold two_robot_result in Hnb. cbn [robots with_robots] in Hnb.
  destruct (neighbour_pass_get _ _ _ fresh_two_robots Hnb) as [ra [Ea ->]].
  rewrite Hk in Ea. inversion Ea; subst. eexists. reflexivity.
Qed.

(** Robots 1 and 2 are 0.2 m apart, within the 0.3 m sensing radius. *)
Lemma two_robot_in_range : exists rd, dict_get 2 (neighbours published_one) = Some rd.
Proof.
  pose proof two_robot_cycle as Hr.
  pose proof (two_robot_get 1 ltac:(lia)) as H1.
  pose proof (two_robot_get 2 ltac:(lia)) as H2.
  unfold published_one.
  destruct (published_neighbour _ _ _ _ _ _ _ _ Hr H1 H2 ltac:(lia)) as [_ [_ ->]].
  destruct (published_two_robots 1 robot_one _ eq_refl H1) as [l1 E1].
  destruct (published_two_robots 2 robot_two _ eq_refl H2) as [l2 E2].
  rewrite E1, E2.
  unfold neighbour_reading, Rltb. cbn.
  destruct (Rlt_dec _ _) as [_|Hn]; [eexists; reflexivity|exfalso; apply Hn].
  unfold math_dist.
  replace ((0 / 500 - 100 / 500) * (0 / 500 - 100 / 500) +
           (0 / 500 - 0 / 500) * (0 / 500 - 0 / 500))%R with (1 / 5 * (1 / 5))%R by field.
  rewrite sqrt_square by lra. lra.
Qed.

Definition reading_12 : SensorReading :=
  match dict_get 2 (neighbours published_one) with
  | Some rd => rd
  | None => mkSensorReading 0 0 0
  end.

Lemma reading_12_get : dict_get 2 (neighbours published_one) = Some reading_12.
Proof.
  unfold reading_12. destruct two_robot_in_range as [rd E]. rewrite E. reflexivity.
Qed.

Lemma neighbour_readings_in_range_witness :
  run_cycle calibrated_state two_robot_dets = Ok (two_robot_result, two_robot_ops) /\
  dict_get 1 (robots two_robot_result) = Some published_one /\
  dict_get 2 (neighbours published_one) = Some reading_12 /\
  (0 <= range reading_12 < 3 / 10)%R.
Proof.
  pose proof two_robot_cycle as Hr.
  pose proof (two_robot_get 1 ltac:(lia)) as H1.
  pose proof reading_12_get as H12.
  split; [exact Hr|split; [exact H1|split; [exact H12|]]].
  exact (proj1 (proj2 (neighbour_readings_in_range _ _ _ _ _ _ _ _ Hr H1 H12))).
Defined.

(** The corners of the last detection of id [k] in [dets], if any. *)
Fixpoint last_det (k : Z) (dets : list (Z * list (Q * Q))) : option (list (Q * Q)) :=
  match dets with
  | [] => None
  | (id, cs) :: ds =>
      match last_det k ds with
      | Some c => Some c
      | None => if Z.eqb id k then Some cs else None
      end
  end.

(** The robot built from a detection of id [k] with corners [cs]. *)
Definition det_robot (scale : R) (k : Z) (cs : list (Q * Q)) : option Robot :=
  match mk_tag k cs with Ok t => Some (built_robot scale t) | Err _ => None end.

Lemma process_dets_get st dets st' ops k :
  calibrated st = true -> process_dets st dets = Ok (st', ops) -> k <> 0 ->
  dict_get k (robots st') =
  match last_det k dets with
  | Some cs => det_robot (scale_factor st) k cs
  | None => dict_get k (robots st)
  end.
Proof.
  revert st ops. induction dets as [|[id cs] ds IH]; intros st ops Hc Hp Hk; simpl in Hp.
  - inversion Hp; subst. reflexivity.
  - destruct (mk_tag id cs) as [t|e] eqn:Et; [|discriminate]. simpl in Hp.
    destruct (process_tag st t) as [[st1 o1]|e] eqn:E1; [|discriminate]. simpl in Hp.
    destruct (process_dets st1 ds) as [[st2 o2]|e] eqn:E2; [|discriminate]. simpl in Hp.
    inversion Hp; subst.
    pose proof (process_tag_calibrated _ _ _ _ Hc E1) as Hcf.
    assert (Hc1 : calibrated st1 = true) by (unfold calib_fields in Hcf; congruence).
    assert (Hs1 : scale_factor st1 = scale_factor st) by (unfold calib_fields in Hcf; congruence).
    rewrite (IH _ _ Hc1 E2 Hk), Hs1. simpl.
    destruct (last_det k ds) as [c|]; [reflexivity|].
    pose proof (mk_tag_id _ _ _ Et) as Hid.
    unfold process_tag in E1. rewrite Hc in E1.
    destruct (Z.eqb_spec id k) as [<-|Hne].
    + assert (Hk' : (tag_id t =? 0) = false) by (apply Z.eqb_neq; lia).
      rewrite Hk' in E1. simpl in E1.
      destruct (py_div (IZR (x (centre t))) (scale_factor st)) as [vx|] eqn:Ex;
        [|discriminate]. simpl in E1.
      destruct (py_div (IZR (y (centre t))) (scale_factor st)) as [vy|] eqn:Ey;
        [|discriminate]. simpl in E1.
      unfold write in E1. inversion E1; subst st1 o1.
      apply py_div_val in Ex as [-> _]. apply py_div_val in Ey as [-> _].
      simpl. rewrite dict_get_set, Hid, Z.eqb_refl. unfold det_robot. rewrite Et.
      reflexivity.
    + destruct (negb (tag_id t =? 0)).
      * destruct (py_div (IZR (x (centre t))) (scale_factor st)) as [vx|];
          [|discriminate]. simpl in E1.
        destruct (py_div (IZR (y (centre t))) (scale_factor st)) as [vy|];
          [|discriminate]. simpl in E1.
        unfold write in E1. inversion E1; subst st1 o1. simpl.
        rewrite dict_get_set, Hid.
        replace (k =? id) with false by (symmetry; apply Z.eqb_neq; lia). reflexivity.
      * inversion E1; subst. reflexivity.
Qed.

Lemma set_neighbours_twice r l1 l2 : set_neighbours (set_neighbours r l1) l2 = set_neighbours r l2.
Proof. reflexivity. Qed.

(** Lines 96-103: in a cycle of a calibrated tracker, the robot published
    under a non-zero id [k] is, neighbours aside, the one built from the
    last detection of id [k] in the frame (a later detection of the same
    id replaces an earlier one); an id not detected is not published. *)
Theorem last_detection_wins st dets st' ops k :
  calibrated st = true -> run_cycle st dets = Ok (st', ops) -> k <> 0 ->
  option_map (fun R => set_neighbours R []) (dict_get k (robots st')) =
  match last_det k dets with
  | Some cs => det_robot (scale_factor st) k cs
  | None => None
  end.
Proof.
  intros Hc Hr Hk. unfold run_cycle, write in Hr. cbn [fst snd exec_op] in Hr.
  destruct dets as [|d ds].
  - inversion Hr; subst. reflexivity.
  - destruct (process_dets (with_robots st []) (d :: ds)) as [[st1 o1]|e] eqn:E;
      [|discriminate].
    simpl in Hr.
    pose proof (process_dets_calibrated (with_robots st []) _ _ _ Hc E) as Hcf.
    assert (Hc1 : calibrated st1 = true) by (unfold calib_fields in Hcf; simpl in Hcf; congruence).
    rewrite Hc1 in Hr. inversion Hr; subst. cbn [robots with_robots].
    rewrite (fold_exec_set_neighbours _ _ (neighbour_ops_set_neighbour _)).
    rewrite dict_get_map_entries.
    rewrite (process_dets_get (with_robots st []) _ _ _ k Hc E Hk). cbn [scale_factor with_robots].
    destruct (last_det k (d :: ds)) as [cs|]; [|reflexivity].
    unfold det_robot. destruct (mk_tag k cs); reflexivity.
Qed.

Lemma last_detection_wins_witness :
  calibrated calibrated_state = true /\
  run_cycle calibrated_state two_robot_dets = Ok (two_robot_result, two_robot_ops) /\
  option_map (fun R => set_neighbours R []) (dict_get 1 (robots two_robot_result)) =
    det_robot (scale_factor calibrated_state) 1 (square_at 0 0).
Proof.
  pose proof two_robot_cycle as Hr.
  split; [reflexivity|split; [exact Hr|]].
  exact (last_detection_wins calibrated_state two_robot_dets _ _ 1 eq_refl Hr ltac:(lia)).
Defined.

Lemma process_tag_keys st t st' o k :
  process_tag st t = Ok (st', o) -> In k (map fst (robots st')) ->
  In k (map fst (robots st)) \/ k = tag_id t.
Proof.
  intros Hp Hin. rewrite (process_tag_log _ _ _ _ Hp) in Hin.
  unfold process_tag in Hp. destruct (calibrated st).
  - destruct (negb (tag_id t =? 0)).
    + destruct (py_div (IZR (x (centre t))) (scale_factor st)); [|discriminate]. simpl in Hp.
      destruct (py_div (IZR (y (centre t))) (scale_factor st)); [|discriminate]. simpl in Hp.
      unfold write in Hp. inversion Hp; subst. simpl in Hin.
      destruct (dict_set_keys _ _ _ _ Hin); tauto.
    + inversion Hp; subst. left. exact Hin.
  - destruct (tag_id t =? 0); inversion Hp; subst; left; exact Hin.
Qed.

Lemma process_dets_keys st dets st' ops k :
  process_dets st dets = Ok (st', ops) -> In k (map fst (robots st')) ->
  In k (map fst (robots st)) \/ In k (map fst dets).
Proof.
  revert st ops. induction dets as [|[id cs] ds IH]; intros st ops Hp Hin; simpl in Hp.
  - inversion Hp; subst. left. exact Hin.
  - destruct (mk_tag id cs) as [t|e] eqn:Et; [|discriminate]. simpl in Hp.
    destruct (process_tag st t) as [[st1 o1]|e] eqn:E1; [|discriminate]. simpl in Hp.
    destruct (process_dets st1 ds) as [[st2 o2]|e] eqn:E2; [|discriminate]. simpl in Hp.
    inversion Hp; subst. simpl.
    destruct (IH _ _ E2 Hin) as [H|H]; [|tauto].
    destruct (process_tag_keys _ _ _ _ _ E1 H) as [H'|H']; [tauto|].
    rewrite (mk_tag_id _ _ _ Et) in H'. subst k. right. left. reflexivity.
Qed.

(** Lines 100-128: robot tags are only stored once the tracker is
    calibrated. In a cycle whose detections [pre] (processed first) leave
    the tracker uncalibrated, none of those robot tags is published: every
    published id is one of the later detections [post]. A cycle that ends
    uncalibrated publishes an empty dict. *)
Theorem calibrating_cycle_drops_earlier st pre post st' ops s1 o1 :
  process_dets (with_robots st []) pre = Ok (s1, o1) -> calibrated s1 = false ->
  run_cycle st (pre ++ post) = Ok (st', ops) ->
  (forall k, In k (map fst (robots st')) -> In k (map fst post)) /\
  (calibrated st' = false -> robots st' = []).
Proof.
  intros Hpre Hc1 Hr. unfold run_cycle, write in Hr. cbn [fst snd exec_op] in Hr.
  assert (Hr1 : robots s1 = []) by exact (process_dets_uncalibrated _ _ _ _ Hpre Hc1).
  destruct (pre ++ post) as [|d ds] eqn:E.
  - inversion Hr; subst. split; [intros k []|reflexivity].
  - rewrite <- E, process_dets_app, Hpre in Hr. simpl in Hr.
    destruct (process_dets s1 post) as [[s2 o2]|e] eqn:E2; [|discriminate]. simpl in Hr.
    pose proof (fun k => process_dets_keys _ _ _ _ k E2) as Hk. rewrite Hr1 in Hk.
    destruct (calibrated s2) eqn:Ec2; inversion Hr; subst.
    + split; [|cbn [calibrated with_robots]; rewrite Ec2; discriminate].
      intros k Hin. cbn [robots with_robots] in Hin. rewrite neighbour_pass_keys in Hin.
      destruct (Hk k Hin) as [[]|H]; exact H.
    + assert (H : robots st' = []) by (rewrite <- Hr1; exact (process_dets_uncalibrated _ _ _ _ E2 Ec2)).
      split; [intros k Hin; rewrite H in Hin; destruct Hin|intros _; exact H].
Qed.

(** The tracker after seeing one corner tag at pixel (0, 0). *)
Definition one_corner_tracker : Tracker :=
  ok_or tracker_init (run_cycles tracker_init [[(0, square_at 0 0)]]).

(** Robot 5 is seen before the second corner tag of the frame. *)
Definition late_corner_pre : list (Z * list (Q * Q)) := [(5, square_at 200 0)].
Definition late_corner_post : list (Z * list (Q * Q)) := [(0, square_at 1030 0)].

Definition late_corner_pre_result : Tracker * list store_op :=
  ok_or (tracker_init, []) (process_dets (with_robots one_corner_tracker []) late_corner_pre).

Definition late_corner_result : Tracker * list store_op :=
  ok_or (tracker_init, []) (run_cycle one_corner_tracker (late_corner_pre ++ late_corner_post)).

Lemma calibrating_cycle_drops_earlier_witness :
  process_dets (with_robots one_corner_tracker []) late_corner_pre = Ok late_corner_pre_result /\
  calibrated (fst late_corner_pre_result) = false /\
  run_cycle one_corner_tracker (late_corner_pre ++ late_corner_post) = Ok late_corner_result /\
  ~ In 5 (map fst (robots (fst late_corner_result))).
Proof.
  assert (H1 : process_dets (with_robots one_corner_tracker []) late_corner_pre =
               Ok late_corner_pre_result) by (apply ok_or_eq; vm_compute; reflexivity).
  assert (H2 : calibrated (fst late_corner_pre_result) = false) by (vm_compute; reflexivity).
  assert (H3 : run_cycle one_corner_tracker (late_corner_pre ++ late_corner_post) =
               Ok late_corner_result) by (apply ok_or_eq; vm_compute; reflexivity).
  split; [exact H1|split; [exact H2|split; [exact H3|]]].
  destruct late_corner_pre_result as [s1 o1]. destruct late_corner_result as [st' ops].
  intros Hin.
  pose proof (proj1 (calibrating_cycle_drops_earlier _ _ _ _ _ _ _ H1 H2 H3) 5 Hin) as H.
  simpl in H. lia.
Defined.

Lemma published_sensor_range st dets st' ops a A :
  run_cycle st dets = Ok (st', ops) -> dict_get a (robots st') = Some A ->
  sensor_range A = (3 / 10)%R.
Proof.
  intros Hr Ha. destruct (published_entry _ _ _ _ _ _ Hr Ha) as [rs [ra [_ [Hb [_ [Ea ->]]]]]].
  destruct (Hb _ _ (dict_get_In _ _ _ Ea)) as [_ [_ [cs [t [_ [_ ->]]]]]].
  reflexivity.
Qed.

(** Lines 138-146 with the same 0.3 m sensing radius for every robot: for
    two distinct published robots, each is a neighbour of the other or
    neither is, and the two readings have the same range (the distance
    [math.dist] computes from absolute coordinate differences, the same
    both ways). *)
Theorem neighbours_symmetric st dets st' ops a A b B :
  run_cycle st dets = Ok (st', ops) ->
  dict_get a (robots st') = Some A -> dict_get b (robots st') = Some B -> a <> b ->
  ((exists rd, dict_get b (neighbours A) = Some rd) <->
   (exists rd, dict_get a (neighbours B) = Some rd)) /\
  (forall rdA rdB, dict_get b (neighbours A) = Some rdA -> dict_get a (neighbours B) = Some rdB ->
     range rdA = range rdB).
Proof.
  intros Hr Ha Hb Hab.
  destruct (published_neighbour _ _ _ _ _ _ _ _ Hr Ha Hb Hab) as [_ [_ EA]].
  destruct (published_neighbour _ _ _ _ _ _ _ _ Hr Hb Ha ltac:(lia)) as [_ [_ EB]].
  rewrite EA, EB.
  pose proof (published_sensor_range _ _ _ _ _ _ Hr Ha) as SA.
  pose proof (published_sensor_range _ _ _ _ _ _ Hr Hb) as SB.
  destruct A as [tA iA [xA yA] oA sA nA], B as [tB iB [xB yB] oB sB nB].
  simpl in SA, SB. subst sA sB.
  unfold neighbour_reading, Rltb. cbn [position px py sensor_range set_neighbours orientation].
  rewrite (math_dist_sym xB yB xA yA).
  destruct (Rlt_dec _ _) as [Hlt|Hnlt].
  - split; [split; intros _; eexists; reflexivity|].
    intros rdA rdB EA' EB'. inversion EA'; inversion EB'; subst. reflexivity.
  - split; [split; intros [rd E]; discriminate|].
    intros rdA rdB E. discriminate.
Qed.

Lemma neighbours_symmetric_witness :
  run_cycle calibrated_state two_robot_dets = Ok (two_robot_result, two_robot_ops) /\
  dict_get 1 (robots two_robot_result) = Some published_one /\
  dict_get 2 (robots two_robot_result) = Some published_two /\
  exists rd, dict_get 1 (neighbours published_two) = Some rd.
Proof.
  pose proof two_robot_cycle as Hr.
  pose proof (two_robot_get 1 ltac:(lia)) as H1.
  pose proof (two_robot_get 2 ltac:(lia)) as H2.
  split; [exact Hr|split; [exact H1|split; [exact H2|]]].
  apply (proj1 (proj1 (neighbours_symmetric _ _ _ _ _ _ _ _ Hr H1 H2 ltac:(lia)))).
  exact two_robot_in_range.
Defined.

(** ** Bounds of the arena *)

(** The corner count and bounds once two corner tags [p1], [p2] have been
    seen. *)
Definition bounds_phase (st : Tracker) (cs : list Vector2D) : Prop :=
  match cs with
  | p1 :: p2 :: _ =>
      num_corner_tags st = 2 /\
      min_x st = Z.min (x p1) (x p2) /\ max_x st = Z.max (x p1) (x p2) /\
      min_y st = Z.min (y p1) (y p2) /\ max_y st = Z.max (y p1) (y p2)
  | _ => True
  end.

Lemma bounds_phase_ext st st' cs :
  calib_fields st' = calib_fields st -> bounds_phase st cs -> bounds_phase st' cs.
Proof.
  unfold calib_fields, bounds_phase. intros E.
  inversion E as [[Hc Hn Hmx Hmy Hxx Hxy Hm Hp Hs]].
  destruct cs as [|p1 [|p2 r]]; [tauto|tauto|]. rewrite Hn, Hmx, Hmy, Hxx, Hxy. tauto.
Qed.

Lemma bounds_phase_app2 st p1 p2 r l :
  bounds_phase st (p1 :: p2 :: r) -> bounds_phase st ((p1 :: p2 :: r) ++ l).
Proof. simpl. tauto. Qed.

Lemma process_tag_bounds st cs t st' o :
  calib_phase st cs -> bounds_phase st cs -> process_tag st t = Ok (st', o) ->
  bounds_phase st' (cs ++ (if Z.eqb (tag_id t) 0 then [centre t] else [])).
Proof.
  intros Hph Hb Hp.
  destruct cs as [|p1 [|p2 cs]].
  - destruct (tag_id t =? 0); exact I.
  - destruct Hph as [_ [Hc [Hn [Hx1 [Hx2 [Hy1 Hy2]]]]]].
    unfold process_tag in Hp. rewrite Hc in Hp.
    destruct (tag_id t =? 0); inversion Hp; subst; [|exact I].
    rewrite Hn. simpl. unfold incr_corner_tags, calibrate_second_corner. simpl.
    rewrite Hn, Hx1, Hx2, Hy1, Hy2, !Z.gtb_ltb.
    repeat split;
      repeat match goal with |- context [?a <? ?b] => destruct (Z.ltb_spec a b) end; lia.
  - pose proof (proj1 (proj2 Hph)) as Hc.
    pose proof (process_tag_calibrated _ _ _ _ Hc Hp) as E.
    apply bounds_phase_app2. exact (bounds_phase_ext _ _ _ E Hb).
Qed.

Lemma process_dets_bounds st cs dets st' ops :
  calib_phase st cs -> bounds_phase st cs -> process_dets st dets = Ok (st', ops) ->
  bounds_phase st' (cs ++ corner_centres dets).
Proof.
  revert st cs ops. induction dets as [|[id css] ds IH]; intros st cs ops Hph Hb Hp; simpl in Hp.
  - inversion Hp; subst. rewrite app_nil_r. exact Hb.
  - destruct (mk_tag id css) as [t|e] eqn:Et; [|discriminate]. simpl in Hp.
    destruct (process_tag st t) as [[st1 o1]|e] eqn:E1; [|discriminate]. simpl in Hp.
    destruct (process_dets st1 ds) as [[st2 o2]|e] eqn:E2; [|discriminate]. simpl in Hp.
    inversion Hp; subst.
    pose proof (process_tag_phase _ _ _ _ _ Hph E1) as P1.
    pose proof (process_tag_bounds _ _ _ _ _ Hph Hb E1) as B1.
    rewrite (mk_tag_id _ _ _ Et) in P1, B1.
    specialize (IH _ _ _ P1 B1 E2). simpl. rewrite Et. rewrite <- app_assoc in IH.
    destruct (id =? 0); exact IH.
Qed.

Lemma run_cycle_bounds st cs dets st' ops :
  calib_phase st cs -> bounds_phase st cs -> run_cycle st dets = Ok (st', ops) ->
  bounds_phase st' (cs ++ corner_centres dets).
Proof.
  intros Hph Hb Hr. unfold run_cycle, write in Hr. cbn [fst snd exec_op] in Hr.
  pose proof (calib_fields_with_robots st []) as Ew.
  assert (P0 : calib_phase (with_robots st []) cs) by exact (calib_phase_ext st _ cs Ew Hph).
  assert (B0 : bounds_phase (with_robots st []) cs) by exact (bounds_phase_ext st _ cs Ew Hb).
  destruct dets as [|d ds].
  - inversion Hr; subst. rewrite app_nil_r. exact B0.
  - destruct (process_dets (with_robots st []) (d :: ds)) as [[st1 o1]|e] eqn:E;
      [|discriminate].
    simpl in Hr. pose proof (process_dets_bounds _ _ _ _ _ P0 B0 E) as B1.
    destruct (calibrated st1); inversion Hr; subst; [|exact B1].
    exact (bounds_phase_ext _ _ _ (calib_fields_with_robots _ _) B1).
Qed.

Lemma run_cycles_bounds st cs cycles st' :
  calib_phase st cs -> bounds_phase st cs -> run_cycles st cycles = Ok st' ->
  bounds_phase st' (cs ++ corner_centres (List.concat cycles)).
Proof.
  revert st cs. induction cycles as [|dets cyc IH]; intros st cs Hph Hb Hr; simpl in Hr.
  - inversion Hr; subst. simpl. rewrite app_nil_r. exact Hb.
  - destruct (run_cycle st dets) as [[st1 o1]|e] eqn:E; [|discriminate].
    simpl in Hr. pose proof (run_cycle_phase _ _ _ _ _ Hph E) as P1.
    pose proof (run_cycle_bounds _ _ _ _ _ Hph Hb E) as B1.
    specialize (IH _ _ P1 B1 Hr). simpl.
    unfold corner_centres in IH |- *. rewrite flat_map_app, app_assoc. exact IH.
Qed.

(** Lines 108-128: once the first two corner-tag centres [p1] and [p2] have
    been seen, the corner count stays at 2 and the arena bounds (the
    rectangle drawn at line 133) are the bounding box of [p1] and [p2]. *)
Theorem calibration_bounds cycles st' p1 p2 rest :
  run_cycles tracker_init cycles = Ok st' ->
  corner_centres (List.concat cycles) = p1 :: p2 :: rest ->
  num_corner_tags st' = 2 /\
  min_x st' = Z.min (x p1) (x p2) /\ max_x st' = Z.max (x p1) (x p2) /\
  min_y st' = Z.min (y p1) (y p2) /\ max_y st' = Z.max (y p1) (y p2).
Proof.
  intros Hr Hc.
  pose proof (run_cycles_bounds _ _ _ _ calib_phase_init I Hr) as B.
  rewrite app_nil_l, Hc in B. exact B.
Qed.

Lemma calibration_bounds_witness :
  run_cycles tracker_init calibration_cycles = Ok calibrated_by_cycles /\
  max_x calibrated_by_cycles = 1030.
Proof.
  assert (Hr : run_cycles tracker_init calibration_cycles = Ok calibrated_by_cycles)
    by (apply ok_or_eq; vm_compute; reflexivity).
  split; [exact Hr|].
  destruct (calibration_bounds calibration_cycles calibrated_by_cycles
              (mkVector2D 0 0) (mkVector2D 1030 0) [] Hr) as [_ [_ [Hm _]]];
    [vm_compute; reflexivity|].
  rewrite Hm. reflexivity.
Defined.

Lemma run_cycle_uncal_empty st dets st' ops :
  run_cycle st dets = Ok (st', ops) -> calibrated st' = false -> robots st' = [].
Proof.
  intros Hr Hc. unfold run_cycle, write in Hr. cbn [fst snd exec_op] in Hr.
  destruct dets as [|d ds].
  - inversion Hr; subst. reflexivity.
  - destruct (process_dets (with_robots st []) (d :: ds)) as [[st1 o1]|e] eqn:E;
      [|discriminate].
    simpl in Hr. destruct (calibrated st1) eqn:Ec; inversion Hr; subst.
    + simpl in Hc. congruence.
    + exact (process_dets_uncalibrated _ _ _ _ E Ec).
Qed.

Lemma run_cycles_calibrated st cycles st' :
  calibrated st = true -> run_cycles st cycles = Ok st' -> calibrated st' = true.
Proof.
  revert st. induction cycles as [|dets cs IH]; intros st Hc Hr; simpl in Hr.
  - inversion Hr; subst. exact Hc.
  - destruct (run_cycle st dets) as [[st1 o1]|e] eqn:E; [|discriminate].
    simpl in Hr. apply (IH st1); [|exact Hr].
    pose proof (run_cycle_calibrated _ _ _ _ Hc E) as H1.
    unfold calib_fields in H1. congruence.
Qed.

Lemma run_cycles_uncal_empty st cycles st' :
  robots st = [] -> run_cycles st cycles = Ok st' -> calibrated st' = false -> robots st' = [].
Proof.
  revert st. induction cycles as [|dets cs IH]; intros st H0 Hr Hc; simpl in Hr.
  - inversion Hr; subst. exact H0.
  - destruct (run_cycle st dets) as [[st1 o1]|e] eqn:E; [|discriminate].
    simpl in Hr. apply (IH st1); [|exact Hr|exact Hc].
    destruct (calibrated st1) eqn:Ec1.
    + pose proof (run_cycles_calibrated _ _ _ Ec1 Hr). congruence.
    + exact (run_cycle_uncal_empty _ _ _ _ E Ec1).
Qed.

(** Lines 104-128: until two corner-tag sightings have been made, the
    tracker stays uncalibrated and publishes no robot at all, whatever
    robot tags it sees. *)
Theorem no_robots_before_two_corners cycles st' :
  run_cycles tracker_init cycles = Ok st' ->
  (List.length (corner_centres (List.concat cycles)) < 2)%nat ->
  calibrated st' = false /\ robots st' = [].
Proof.
  intros Hr Hlen.
  pose proof (run_cycles_phase _ _ _ _ calib_phase_init Hr) as Hph.
  rewrite app_nil_l in Hph.
  assert (Hc : calibrated st' = false).
  { destruct (corner_centres (List.concat cycles)) as [|p [|p2 r]];
      [exact (proj1 (proj2 Hph))|exact (proj1 (proj2 Hph))|simpl in Hlen; lia]. }
  split; [exact Hc|]. exact (run_cycles_uncal_empty tracker_init _ _ eq_refl Hr Hc).
Qed.

(** One corner tag and two robot tags, over two frames. *)
Definition one_corner_cycles : list (list (Z * list (Q * Q))) :=
  [[(0, square_at 0 0); (3, square_at 100 100)]; [(4, square_at 50 50)]].

Definition one_corner_result : Tracker :=
  ok_or tracker_init (run_cycles tracker_init one_corner_cycles).

Lemma no_robots_before_two_corners_witness :
  run_cycles tracker_init one_corner_cycles = Ok one_corner_result /\
  robots one_corner_result = [].
Proof.
  assert (Hr : run_cycles tracker_init one_corner_cycles = Ok one_corner_result)
    by (apply ok_or_eq; vm_compute; reflexivity).
  split; [exact Hr|].
  apply (no_robots_before_two_corners _ _ Hr). vm_compute. lia.
Defined.

(** ** Replies of the handler *)

Open Scope string_scope.

(** [key in message] for a decoded JSON object. *)
Definition obj_has (key : string) (l : list (string * json)) : bool :=
  existsb (fun '(k, _) => String.eqb k key) l.

(** The [awake] and [ids] entries a request object asks for (lines
    212-218), in the order they are inserted. *)
Definition base_reply (l : list (string * json)) (rs : list (Z * Robot))
  : list (pykey * pyval) :=
  ((if obj_has "check_awake" l then [(KStr "awake", VBool true)] else []) ++
   (if obj_has "get_ids" l then [(KStr "ids", VIntList (map fst rs))] else []))%list.

(** The dict a reply holds for one sensor reading (lines 225-228). *)
Definition reading_value (n : SensorReading) : pyval :=
  VDict [(KStr "range", VFloat (range n));
         (KStr "bearing", VFloat (bearing n));
         (KStr "orientation", VFloat (sr_orientation n))].

(** The dict a [get_robots] reply holds for one robot (lines 236-244). *)
Definition robot_value (r : Robot) : pyval :=
  VDict [(KStr "orientation", VFloat (orientation r));
         (KStr "neighbours", VDict (neighbours_reply r))].

Lemma pykey_eqb_spec a b : pykey_eqb a b = true <-> a = b.
Proof.
  destruct a as [s|m], b as [t|n]; simpl.
  - rewrite String.eqb_eq. split; [intros ->|intros E; inversion E]; reflexivity.
  - split; discriminate.
  - split; discriminate.
  - rewrite Z.eqb_eq. split; [intros ->|intros E; inversion E]; reflexivity.
Qed.

Lemma reply_set_new k v d : ~ In k (map fst d) -> reply_set k v d = (d ++ [(k, v)])%list.
Proof.
  induction d as [|[k' v'] d IH]; simpl; intros Hn; [reflexivity|].
  destruct (pykey_eqb k k') eqn:E.
  - apply pykey_eqb_spec in E. subst k'. exfalso. apply Hn. left. reflexivity.
  - rewrite IH; [reflexivity|]. intros H. apply Hn. right. exact H.
Qed.

(** Filling a reply dict with integer keys that are all distinct and new
    appends one entry per key, in order. *)
Lemma reply_fold_new {X} (f : Z -> X -> pyval) (l : list (Z * X)) d :
  NoDup (map fst l) -> (forall k, In k (map fst l) -> ~ In (KInt k) (map fst d)) ->
  fold_left (fun d '(k, x) => reply_set (KInt k) (f k x) d) l d =
  (d ++ map (fun '(k, x) => (KInt k, f k x)) l)%list.
Proof.
  revert d. induction l as [|[k x] l IH]; intros d Hnd Hd; simpl.
  - rewrite app_nil_r. reflexivity.
  - inversion Hnd as [|? ? Hk Hnd']; subst.
    rewrite reply_set_new by (apply Hd; left; reflexivity).
    rewrite IH; [rewrite <- app_assoc; reflexivity|exact Hnd'|].
    intros k' Hk' Hin. rewrite map_app in Hin. apply in_app_or in Hin as [Hin|Hin].
    + exact (Hd k' (or_intror Hk') Hin).
    + simpl in Hin. destruct Hin as [E|[]]. inversion E; subst k'. exact (Hk Hk').
Qed.

Lemma neighbours_reply_map r :
  NoDup (map fst (neighbours r)) ->
  neighbours_reply r = map (fun '(nid, n) => (KInt nid, reading_value n)) (neighbours r).
Proof.
  intros H. unfold neighbours_reply.
  refine (reply_fold_new (fun _ n => reading_value n) (neighbours r) [] H _).
  intros k _ [].
Qed.

Lemma base_reply_no_int l rs k : ~ In (KInt k) (map fst (base_reply l rs)).
Proof.
  unfold base_reply. destruct (obj_has "check_awake" l), (obj_has "get_ids" l);
    simpl; intuition discriminate.
Qed.

Lemma fill_NoDup g rs nb : NoDup (map fst nb) -> NoDup (map fst (fill g rs nb)).
Proof.
  unfold fill. revert nb. induction rs as [|[oid o] rs IH]; intros nb H; simpl; [exact H|].
  apply IH. destruct (g oid o); [apply dict_set_NoDup, H|exact H].
Qed.

Lemma published_robots_NoDup st dets st' ops :
  run_cycle st dets = Ok (st', ops) -> NoDup (map fst (robots st')).
Proof.
  intros Hr. destruct (run_cycle_robots _ _ _ _ Hr) as [rs [Hf Hrs]].
  rewrite Hrs, neighbour_pass_keys. exact (proj1 Hf).
Qed.

Lemma published_neighbours_NoDup st dets st' ops a A :
  run_cycle st dets = Ok (st', ops) -> dict_get a (robots st') = Some A ->
  NoDup (map fst (neighbours A)).
Proof.
  intros Hr Ha. destruct (published_entry _ _ _ _ _ _ Hr Ha) as [rs [ra [_ [_ [_ [_ ->]]]]]].
  destruct ra. cbn [set_neighbours neighbours]. apply fill_NoDup. constructor.
Qed.

(** Lines 210-218 and 248-250: a request object with neither [get_robot]
    nor [get_robots] is answered exactly when it has [check_awake] or
    [get_ids] (whatever their values), with [awake: true] and then the
    list of tracked ids, in the dict's order; otherwise nothing is sent. *)
Theorem awake_ids_reply rs l :
  obj_has "get_robot" l = false -> obj_has "get_robots" l = false ->
  handle_message rs (Ok (JObj l)) =
  Ok (if obj_has "check_awake" l || obj_has "get_ids" l then Some (base_reply l rs) else None).
Proof.
  intros H3 H4. unfold base_reply. unfold obj_has in *. unfold handle_message.
  cbn [bind py_contains]. rewrite H3, H4.
  destruct (existsb (fun '(k0, _) => String.eqb k0 "check_awake") l),
           (existsb (fun '(k0, _) => String.eqb k0 "get_ids") l); reflexivity.
Qed.

Lemma awake_ids_reply_witness :
  handle_message two_robots (Ok (JObj [("check_awake", JBool false); ("get_ids", JNull)])) =
  Ok (Some [(KStr "awake", VBool true); (KStr "ids", VIntList [1; 2])]).
Proof.
  rewrite (awake_ids_reply two_robots [("check_awake", JBool false); ("get_ids", JNull)]);
    reflexivity.
Defined.

(** Lines 220-231: a request object whose [get_robot] value compares
    equal to the key [k] of a tracked robot [r] (an integer, a boolean or
    an integral float) and which has no [get_robots] is answered with the
    [awake]/[ids] entries it asks for, then [r]'s orientation and the
    dict of its neighbours' readings. *)
Theorem get_robot_reply rs l v k r :
  obj_get "get_robot" l = Some v -> py_int_key v = Ok (Some k) -> dict_get k rs = Some r ->
  obj_has "get_robots" l = false ->
  handle_message rs (Ok (JObj l)) =
  Ok (Some (base_reply l rs ++
            [(KStr "orientation", VFloat (orientation r));
             (KStr "neighbours", VDict (neighbours_reply r))])%list).
Proof.
  intros Hg Hk Hr H4. pose proof (obj_get_contains _ _ _ Hg) as H3.
  unfold base_reply, obj_has in *. unfold handle_message.
  cbn [bind py_contains py_getitem]. rewrite H3, H4, Hg. cbn [bind].
  unfold robots_getitem. rewrite Hk. cbn [bind]. rewrite Hr. cbn [bind].
  destruct (existsb (fun '(k0, _) => String.eqb k0 "check_awake") l),
           (existsb (fun '(k0, _) => String.eqb k0 "get_ids") l); reflexivity.
Qed.

Lemma get_robot_reply_witness :
  handle_message [(1, robot_one)]
    (Ok (JObj [("check_awake", JBool false); ("get_robot", JBool true)])) =
  Ok (Some [(KStr "awake", VBool true);
            (KStr "orientation", VFloat (orientation robot_one));
            (KStr "neighbours", VDict (neighbours_reply robot_one))]).
Proof.
  rewrite (get_robot_reply [(1, robot_one)]
             [("check_awake", JBool false); ("get_robot", JBool true)]
             (JBool true) 1 robot_one); reflexivity.
Defined.

(** Lines 233-246: a request object with [get_robots] and no [get_robot]
    is answered with the [awake]/[ids] entries it asks for, then one entry
    per tracked robot, in the dict's order, keyed by its id and holding
    its orientation and neighbours; with no robot tracked, the reply is
    still sent (possibly as an empty dict). *)
Theorem get_robots_reply rs l :
  NoDup (map fst rs) -> obj_has "get_robots" l = true -> obj_has "get_robot" l = false ->
  handle_message rs (Ok (JObj l)) =
  Ok (Some (base_reply l rs ++ map (fun '(id, r) => (KInt id, robot_value r)) rs)%list).
Proof.
  intros Hnd H4 H3.
  pose proof (fun d => reply_fold_new (fun _ r => robot_value r) rs d Hnd) as F.
  pose proof (base_reply_no_int l rs) as Hb.
  unfold base_reply, obj_has in *. unfold handle_message.
  cbn [bind py_contains]. rewrite H3, H4. cbn [bind fst].
  destruct (existsb (fun '(k0, _) => String.eqb k0 "check_awake") l),
           (existsb (fun '(k0, _) => String.eqb k0 "get_ids") l);
    cbn [app] in Hb |- *; rewrite F by (intros k _; apply Hb); reflexivity.
Qed.

Lemma get_robots_reply_witness :
  handle_message [] (Ok (JObj [("get_robots", JNull)])) = Ok (Some []).
Proof.
  rewrite (get_robots_reply [] [("get_robots", JNull)]);
    [reflexivity|constructor|reflexivity|reflexivity].
Defined.

(** Lines 221-222: how the [get_robot] value of a request object is
    looked up in [tracker.robots]. A string (even ["7"] when robot 7 is
    tracked) or null is never a key: [KeyError]. A list or dict is
    unhashable: [TypeError]. A boolean is looked up as 0 or 1, an
    integral float as the integer it equals, and a float with a fractional
    part is never a key. Each error ends the request with no reply. *)
Theorem get_robot_bad_id rs l v :
  obj_get "get_robot" l = Some v ->
  match v with
  | JNull | JStr _ => handle_message rs (Ok (JObj l)) = Err KeyError
  | JArr _ | JObj _ => handle_message rs (Ok (JObj l)) = Err TypeError
  | JBool b => dict_get (if b then 1 else 0) rs = None ->
               handle_message rs (Ok (JObj l)) = Err KeyError
  | JInt z => dict_get z rs = None -> handle_message rs (Ok (JObj l)) = Err KeyError
  | JFloat q => (Z.rem (Qnum q) (Zpos (Qden q)) <> 0 \/
                 dict_get (Z.quot (Qnum q) (Zpos (Qden q))) rs = None) ->
                handle_message rs (Ok (JObj l)) = Err KeyError
  end.
Proof.
  intros Hg. pose proof (handle_message_missing_robot rs l v) as M.
  destruct v as [|b|z|q|s|a|o]; try intros Hn; apply (M _ Hg);
    unfold robots_getitem, py_int_key; cbn [bind]; try reflexivity.
  - rewrite Hn. reflexivity.
  - rewrite Hn. reflexivity.
  - destruct (Z.eqb_spec (Z.rem (Qnum q) (Zpos (Qden q))) 0) as [E|E]; [|reflexivity].
    destruct Hn as [Hn|Hn]; [contradiction|]. cbn [bind]. rewrite Hn. reflexivity.
Qed.

Lemma get_robot_bad_id_witness :
  handle_message [(7, robot_one)] (Ok (JObj [("get_robot", JStr "7")])) = Err KeyError.
Proof.
  exact (get_robot_bad_id [(7, robot_one)] [("get_robot", JStr "7")] (JStr "7") eq_refl).
Defined.

(** Lines 212-222 on a packet that decodes to a string or an array: when
    ["get_robot"] is in it (a substring, or an element), [message["get_robot"]]
    raises [TypeError], so the request gets no reply even when it also
    asks for [awake] or [ids]; the string ["get_robots"] is one such
    packet. *)
Theorem get_robot_on_non_object rs m :
  match m with JStr _ | JArr _ => True | _ => False end ->
  py_contains "get_robot" m = Ok true ->
  handle_message rs (Ok m) = Err TypeError.
Proof.
  intros Hm Hc. destruct m as [| | | |s|a|o]; try contradiction;
    inversion Hc as [Hc']; unfold handle_message; cbn [bind py_contains]; rewrite Hc';
    repeat match goal with |- context [if ?b then _ else _] => destruct b end;
    reflexivity.
Qed.

Lemma get_robot_on_non_object_witness :
  handle_message two_robots (Ok (JStr "get_robots")) = Err TypeError.
Proof.
  apply (get_robot_on_non_object two_robots (JStr "get_robots") I). reflexivity.
Defined.

(** Lines 220-231 on the dict a cycle of [Tracker.run] publishes:
    [{"get_robot": k}] for a published robot [R] is answered with exactly
    [R]'s orientation and one entry per neighbour, keyed by its id, with
    the reading's range, bearing and orientation. *)
Theorem published_get_robot_reply st dets st' ops k R :
  run_cycle st dets = Ok (st', ops) -> dict_get k (robots st') = Some R ->
  handle_message (robots st') (Ok (JObj [("get_robot", JInt k)])) =
  Ok (Some [(KStr "orientation", VFloat (orientation R));
            (KStr "neighbours",
             VDict (map (fun '(nid, n) => (KInt nid, reading_value n)) (neighbours R)))]).
Proof.
  intros Hr Hk.
  rewrite (get_robot_reply (robots st') [("get_robot", JInt k)] (JInt k) k R
             eq_refl eq_refl Hk eq_refl).
  rewrite (neighbours_reply_map R (published_neighbours_NoDup _ _ _ _ _ _ Hr Hk)).
  reflexivity.
Qed.

Lemma published_get_robot_reply_witness :
  handle_message (robots two_robot_result) (Ok (JObj [("get_robot", JInt 1)])) =
  Ok (Some [(KStr "orientation", VFloat (orientation published_one));
            (KStr "neighbours",
             VDict (map (fun '(nid, n) => (KInt nid, reading_value n))
                        (neighbours published_one)))]).
Proof.
  exact (published_get_robot_reply _ _ _ _ 1 published_one two_robot_cycle
           (two_robot_get 1 ltac:(lia))).
Defined.

(** Lines 233-246 on the dict a cycle of [Tracker.run] publishes:
    [{"get_robots": ...}] is answered with one entry per published robot,
    in the dict's order, keyed by its id, holding its orientation and one
    entry per neighbour with the reading's range, bearing and orientation. *)
Theorem published_get_robots_reply st dets st' ops v :
  run_cycle st dets = Ok (st', ops) ->
  handle_message (robots st') (Ok (JObj [("get_robots", v)])) =
  Ok (Some (map (fun '(id, R) =>
                   (KInt id,
                    VDict [(KStr "orientation", VFloat (orientation R));
                           (KStr "neighbours",
                            VDict (map (fun '(nid, n) => (KInt nid, reading_value n))
                                       (neighbours R)))]))
                (robots st'))).
Proof.
  intros Hr. pose proof (published_robots_NoDup _ _ _ _ Hr) as Hnd.
  rewrite (get_robots_reply (robots st') [("get_robots", v)] Hnd eq_refl eq_refl).
  do 2 f_equal. cbn [base_reply obj_has existsb]. simpl app.
  apply map_ext_in. intros [id R] Hin. unfold robot_value.
  rewrite (neighbours_reply_map R
             (published_neighbours_NoDup _ _ _ _ id R Hr (dict_get_NoDup_In _ _ _ Hnd Hin))).
  reflexivity.
Qed.

Lemma published_get_robots_reply_witness :
  exists reply,
    handle_message (robots two_robot_result) (Ok (JObj [("get_robots", JBool true)])) =
    Ok (Some reply) /\ List.length reply = 2%nat.
Proof.
  eexists. split.
  - exact (published_get_robots_reply _ _ _ _ (JBool true) two_robot_cycle).
  - rewrite length_map. exact two_robot_result_length.
Defined.

Close Scope string_scope.
